(** * Browser Preview: the App controller and the Connection it drives

    Definitions come first.

    - [JS]: the fragment of JavaScript data that travels between the App
      and the remote target: JSON-like values, the coercions the App
      relies on ([ToNumber], [ToString], [ToBoolean]), property access and
      the one regular expression of the source.
    - [Connection]: the protocol multiplexer the App imports from
      [./connection].
    - [App]: the controller of [src/App.tsx], written in a small
      state-and-exception monad that records every [connection.send].
    - [Exact] and [Samples]: an arithmetic and inputs to evaluate the
      definitions on.

    [AppFacts] and [ConnectionFacts] then state and prove what the
    callbacks of the App send and store, and how the Connection
    correlates, dispatches, terminates and logs. *)

From Stdlib Require Import ZArith QArith Qround Qreduction Sorted.
From stdpp Require Import gmap list strings pretty.

Set Warnings "-register-all".
Local Open Scope Z_scope.
Local Open Scope list_scope.

(** JavaScript strings are sequences of UTF-16 code units. *)
Abbreviation code_unit := N.
Abbreviation jsstring := (list N).

(** A string literal of the source, as code units. *)
Definition lit (s : string) : jsstring :=
  (λ a, Ascii.N_of_ascii a) <$> String.list_ascii_of_string s.

Module JS.

(** ** Numbers

    The source computes with IEEE doubles through [Math.floor], [*], [-]
    and [===]. These are operations of the host, not of the repository:
    the model takes them as an interface, so that every statement below
    holds for whatever arithmetic implements it. *)
Class JSNumber := {
  number : Type;
  num_of_Z : Z → number;                    (* integer literals, lengths *)
  num_0_1 : number;                         (* the literal 0.1 *)
  num_NaN : number;
  num_strict_eq : number → number → bool;   (* === on two numbers *)
  num_truthy : number → bool;               (* ToBoolean *)
  Math_floor : number → number;
  num_mul : number → number → number;
  num_sub : number → number → number;
  num_to_string : number → jsstring;        (* Number::toString *)
  num_of_string : jsstring → number;        (* StringToNumber *)
}.

Section Values.
Context `{JSNumber}.

(** ** Values

    Payloads are what the protocol carries: primitives, plain objects
    and arrays, as [JSON.parse] builds them. An object keeps its own
    properties in insertion order; none of them is callable. Values are
    immutable snapshots.

    Members inherited from a prototype are not part of a value, and a
    read of one yields [undefined] here. The source reads properties by
    the names [frame], [parentId], [sessionId], [data], [metadata], [url],
    [title], [settings], [startUrl], [verbose], [currentIndex], [action],
    [params], [height], [width], none of them inherited by any value, and
    [length], which is modelled. Two reads can reach an inherited member:
    [history.entries] when the payload is an array, and
    [historyEntries[historyIndex]] when the index spells a member's name
    (['constructor'], ['toString'], ...). In both the source holds a
    function or a prototype object where the model holds [undefined], and
    in both the next reads, [.url] and then [url.match], end in the same
    [TypeError] before anything is stored or sent. *)
Inductive value :=
  | VUndefined
  | VNull
  | VBool (b : bool)
  | VNum (n : number)
  | VStr (s : jsstring)
  | VObj (props : list (jsstring * value))
  | VArr (elems : list value).

(** Abrupt completion: the only exception the modelled code can raise is
    a [TypeError] (property access on [undefined] or [null], calling
    something that is not a function). *)
Inductive exn := TypeError.

Inductive completion (A : Type) :=
  | Normal (a : A)
  | Throw (e : exn).
Global Arguments Normal {A} a.
Global Arguments Throw {A} e.

(** [ToBoolean]. *)
Definition truthy (v : value) : bool :=
  match v with
  | VUndefined | VNull => false
  | VBool b => b
  | VNum n => num_truthy n
  | VStr s => match s with [] => false | _ => true end
  | VObj _ | VArr _ => true
  end.

Fixpoint own_property (props : list (jsstring * value)) (k : jsstring)
  : option value :=
  match props with
  | [] => None
  | (k', v) :: rest =>
      if bool_decide (k' = k) then Some v else own_property rest k
  end.

(** [ToString]. An object goes through [ToPrimitive]: the inherited
    [toString] gives ["[object Object]"], unless an own property named
    [toString] shadows it; that property is not callable, the inherited
    [valueOf] returns the object itself, and the conversion ends in a
    [TypeError]. An array is joined with commas, [undefined] and [null]
    elements contributing nothing and every other element being
    converted in turn. *)
Fixpoint to_string (v : value) : completion jsstring :=
  match v with
  | VUndefined => Normal (lit "undefined")
  | VNull => Normal (lit "null")
  | VBool true => Normal (lit "true")
  | VBool false => Normal (lit "false")
  | VNum n => Normal (num_to_string n)
  | VStr s => Normal s
  | VObj props =>
      match own_property props (lit "toString") with
      | Some _ => Throw TypeError
      | None => Normal (lit "[object Object]")
      end
  | VArr l =>
      (fix join (l : list value) : completion jsstring :=
         match l with
         | [] => Normal []
         | x :: rest =>
             match match x with
                   | VUndefined | VNull => Normal []
                   | _ => to_string x
                   end with
             | Throw e => Throw e
             | Normal sx =>
                 match rest with
                 | [] => Normal sx
                 | _ =>
                     match join rest with
                     | Throw e => Throw e
                     | Normal sr => Normal (sx ++ lit "," ++ sr)
                     end
                 end
             end
         end) l
  end.

(** [ToNumber]. An object or array goes through [ToPrimitive] with hint
    number: the inherited [valueOf] returns the object itself, so the
    result is that of [ToString], read as a number, and the [TypeError]
    of [ToString] is that of [ToNumber]. *)
Definition to_number (v : value) : completion number :=
  match v with
  | VUndefined => Normal num_NaN
  | VNull => Normal (num_of_Z 0)
  | VBool true => Normal (num_of_Z 1)
  | VBool false => Normal (num_of_Z 0)
  | VNum n => Normal n
  | VStr s => Normal (num_of_string s)
  | VObj _ | VArr _ =>
      match to_string v with
      | Normal s => Normal (num_of_string s)
      | Throw e => Throw e
      end
  end.

(** [v === n] for a number [n]: no coercion. *)
Definition strict_eq_num (v : value) (n : number) : bool :=
  match v with
  | VNum m => num_strict_eq m n
  | _ => false
  end.

(** [v === s] for a string literal [s]. *)
Definition strict_eq_str (v : value) (s : jsstring) : bool :=
  match v with
  | VStr t => bool_decide (t = s)
  | _ => false
  end.

(** A property key is an array index when it is the canonical decimal
    numeral of an integer below 2^32 - 1. *)
Definition array_index (k : jsstring) : option nat :=
  match k with
  | [] => None
  | _ =>
      if forallb (λ c, (48 <=? c)%N && (c <=? 57)%N) k then
        let n := fold_left (λ acc c, (10 * acc + (c - 48))%N) k 0%N in
        if bool_decide (lit (pretty n) = k) && (n <? 4294967295)%N
        then Some (N.to_nat n) else None
      else None
  end.

(** Property read [v[k]] with the key already a string. *)
Definition get (v : value) (k : jsstring) : completion value :=
  match v with
  | VUndefined | VNull => Throw TypeError
  | VBool _ | VNum _ => Normal VUndefined
  | VStr s =>
      match array_index k with
      | Some i => Normal (from_option (λ c, VStr [c]) VUndefined (s !! i))
      | None =>
          if bool_decide (k = lit "length")
          then Normal (VNum (num_of_Z (Z.of_nat (length s))))
          else Normal VUndefined
      end
  | VObj props => Normal (default VUndefined (own_property props k))
  | VArr l =>
      match array_index k with
      | Some i => Normal (default VUndefined (l !! i))
      | None =>
          if bool_decide (k = lit "length")
          then Normal (VNum (num_of_Z (Z.of_nat (length l))))
          else Normal VUndefined
      end
  end.

(** Computed property read [v[key]]: the key goes through
    [ToPropertyKey], that is [ToString], which may throw; so may the read,
    on [undefined] or [null]. Both throw a [TypeError]. *)
Definition get_elem (v key : value) : completion value :=
  match to_string key with
  | Normal k => get v k
  | Throw e => Throw e
  end.

(** ** The pattern [/^http:\/\/(.+)/]

    [.] matches any code unit but a line terminator; [+] is greedy and
    nothing follows it, so group 1 is the longest run of such code units
    right after the prefix, and the match fails when that run is empty. *)
Definition line_terminator (c : code_unit) : bool :=
  bool_decide (c = 10%N) || bool_decide (c = 13%N)
  || bool_decide (c = 8232%N) || bool_decide (c = 8233%N).

Fixpoint strip_prefix (p s : jsstring) : option jsstring :=
  match p, s with
  | [], _ => Some s
  | a :: p', b :: s' => if bool_decide (a = b) then strip_prefix p' s' else None
  | _ :: _, [] => None
  end.

Fixpoint dot_plus (s : jsstring) : jsstring :=
  match s with
  | [] => []
  | c :: s' => if line_terminator c then [] else c :: dot_plus s'
  end.

(** [s.match(/^http:\/\/(.+)/)], reduced to group 1 of a successful
    match. *)
Definition match_http (s : jsstring) : option jsstring :=
  match strip_prefix (lit "http://") s with
  | Some rest =>
      match dot_plus rest with
      | [] => None
      | g => Some g
      end
  | None => None
  end.

(** The rule for [state.url] on a url without line terminators: a
    leading ['http://'] is removed when at least one character follows
    it; any other url is kept whole. *)
Definition http_removed_when_followed (u : jsstring) : jsstring :=
  match strip_prefix (lit "http://") u with
  | Some (c :: rest) => c :: rest
  | _ => u
  end.

(** The rule for [state.url] in the words of the specification: a leading
    ['http://'] is removed when present. *)
Definition leading_http_removed (u : jsstring) : jsstring :=
  match strip_prefix (lit "http://") u with
  | Some rest => rest
  | None => u
  end.

End Values.

End JS.

(** * The Connection

    [src/App.tsx] imports [Connection] from [./connection]; every
    definition of this module is written from the specification of that
    class. Promises and handlers are opaque to the Connection: a promise
    is named by the order in which [send] allocated it, a handler by a
    token chosen by whoever registers it. What the Connection does to the
    outside (writes to the Transport, settlements, handler calls, lines
    on the diagnostic sink) is returned as a list of effects, in the order
    in which it happens. *)
Module Connection.

Abbreviation promise := nat.
Abbreviation handler := nat.

Section Core.
Context {payload : Type}.

(** Modelled from the spec: the lifecycle of a [Connection], whose source
    [connection.ts] is missing (section 4.1, "State machine"): [Open] and
    [Closed], with no way back. *)
Inductive lifecycle := Open | Closed.

(** Modelled from the spec: the message type of the missing
    [connection.ts], the Transport's shape
    [{ id?, method?, params?, result?, error? }] (section 6); an outbound
    command fills [id], [method] and [params]. *)
Record message := Message {
  msg_id : option Z;
  msg_method : option jsstring;
  msg_params : option payload;
  msg_result : option payload;
  msg_error : option payload;
}.

(** Modelled from the spec: the rejection reasons of the missing
    [connection.ts] (section 7): the wire-level error payload, or the
    Connection-level "connection closed". *)
Inductive error :=
  | WireError (e : payload)
  | ConnectionClosed.

(** Modelled from the spec: the Pending Call record of the missing
    [connection.ts], [{ id, resolve-callback, reject-callback, issuedAt }]
    (section 3); the two callbacks are the two ways of settling
    [pc_promise]. *)
Record pending_call := PendingCall {
  pc_id : Z;
  pc_promise : promise;
  pc_issuedAt : N;
}.

(** Which way a traced message travels. *)
Inductive direction := Outbound | Inbound.

(** Modelled from the spec: what the missing [connection.ts] does to its
    collaborators (sections 2 and 4.1): Transport writes, promise
    settlements, handler calls, lines on the diagnostic sink. *)
Inductive effect :=
  | Write (m : message)                          (* to the Transport *)
  | Resolve (p : promise) (r : option payload)
  | Reject (p : promise) (e : error)
  | Invoke (h : handler) (params : option payload)
  | Trace (d : direction) (m : message).         (* diagnostic sink *)

(** Modelled from the spec: the fields of the missing class [Connection]
    (section 3): lifecycle, next correlation id, pending-call table,
    handler registry and logging mode. [next_promise] counts the promises
    handed out. *)
Record conn := Conn {
  lifecycle_state : lifecycle;
  next_id : Z;
  next_promise : promise;
  pending : gmap Z pending_call;
  registry : gmap (list N) (list handler);
  logging : bool;
}.

(** Modelled from the spec: the missing constructor of [Connection]: a
    fresh Connection is [Open], has nothing pending and nothing
    registered; the spec leaves the first id open. *)
Definition new (first_id : Z) : conn :=
  {| lifecycle_state := Open; next_id := first_id; next_promise := 0%nat;
     pending := ∅; registry := ∅; logging := false |}.

(** Modelled from the spec: the trace decision of the missing
    [connection.ts]; the logging mode is "read before each trace decision"
    (section 3, Logging Mode). *)
Definition trace (c : conn) (d : direction) (m : message) : list effect :=
  if logging c then [Trace d m] else [].

(** Modelled from the spec: the missing [Connection.send(method, params)]
    (section 4.1): take the next id, build [{id, method, params}],
    register the Pending Call, write the message, return the promise. Once
    [Closed] the call fails fast: the returned promise is rejected on the
    spot (sections 4.1, 7). That [method] is not empty is the caller's
    obligation. *)
Definition send (c : conn) (now : N) (method : jsstring)
    (params : option payload) : conn * promise * list effect :=
  let p := next_promise c in
  match lifecycle_state c with
  | Open =>
      let id := next_id c in
      let m := {| msg_id := Some id; msg_method := Some method;
                  msg_params := params; msg_result := None;
                  msg_error := None |} in
      ({| lifecycle_state := Open;
          next_id := id + 1;
          next_promise := S p;
          pending := <[id := PendingCall id p now]> (pending c);
          registry := registry c;
          logging := logging c |},
       p,
       trace c Outbound m ++ [Write m])
  | Closed =>
      ({| lifecycle_state := Closed;
          next_id := next_id c;
          next_promise := S p;
          pending := pending c;
          registry := registry c;
          logging := logging c |},
       p,
       [Reject p ConnectionClosed])
  end.

(** Modelled from the spec: the missing [Connection.on(method, handler)]
    (section 4.1): append to the sequence for [method], creating it if
    absent; no de-duplication. *)
Definition on (c : conn) (method : jsstring) (h : handler) : conn :=
  {| lifecycle_state := lifecycle_state c;
     next_id := next_id c;
     next_promise := next_promise c;
     pending := pending c;
     registry := <[method := default [] (registry c !! method) ++ [h]]>
                   (registry c);
     logging := logging c |}.

(** Modelled from the spec: the missing
    [Connection.setLoggingMode(enabled)] (section 4.1), a pure toggle. *)
Definition setLoggingMode (c : conn) (enabled : bool) : conn :=
  {| lifecycle_state := lifecycle_state c;
     next_id := next_id c;
     next_promise := next_promise c;
     pending := pending c;
     registry := registry c;
     logging := enabled |}.

(** Modelled from the spec: how the missing [connection.ts] settles a
    call with its matched response (section 4.1, step 2): resolve with
    [result] when there is no [error] field, reject with the error payload
    otherwise. *)
Definition settlement (p : promise) (m : message) : effect :=
  match msg_error m with
  | None => Resolve p (msg_result m)
  | Some e => Reject p (WireError e)
  end.

(** Modelled from the spec: the inbound message classification of the
    missing [connection.ts] (section 4.1, steps 1 to 4): trace, then settle
    the Pending Call the id matches, or discard an id that matches none, or
    call the handlers of the method, or discard. A [Closed] Connection has
    no Transport to hear from. *)
Definition receive (c : conn) (m : message) : conn * list effect :=
  match lifecycle_state c with
  | Closed => (c, [])
  | Open =>
      match msg_id m with
      | Some id =>
          match pending c !! id with
          | Some pc =>
              ({| lifecycle_state := Open;
                  next_id := next_id c;
                  next_promise := next_promise c;
                  pending := delete id (pending c);
                  registry := registry c;
                  logging := logging c |},
               trace c Inbound m ++ [settlement (pc_promise pc) m])
          | None => (c, trace c Inbound m)
          end
      | None =>
          match msg_method m with
          | Some method =>
              (c, trace c Inbound m ++
                    ((λ h, Invoke h (msg_params m)) <$>
                       default [] (registry c !! method)))
          | None => (c, trace c Inbound m)
          end
      end
  end.

(** Modelled from the spec: what the missing [connection.ts] does on
    Transport termination, the transition [Open → Closed] (sections 4.1,
    7): every still-Pending Call is force-rejected with the
    connection-closed error and leaves the table. *)
Definition close (c : conn) : conn * list effect :=
  match lifecycle_state c with
  | Closed => (c, [])
  | Open =>
      ({| lifecycle_state := Closed;
          next_id := next_id c;
          next_promise := next_promise c;
          pending := ∅;
          registry := registry c;
          logging := logging c |},
       (λ kv, Reject (pc_promise kv.2) ConnectionClosed) <$>
         map_to_list (pending c))
  end.

(** ** Runs

    A run is the sequence of discrete steps the event loop feeds to the
    Connection (section 5). *)
Inductive op :=
  | Send (now : N) (method : jsstring) (params : option payload)
  | On (method : jsstring) (h : handler)
  | SetLoggingMode (enabled : bool)
  | Deliver (m : message)
  | Terminate.

Definition step (c : conn) (o : op) : conn * list effect :=
  match o with
  | Send now method params =>
      let '(c', _, es) := send c now method params in (c', es)
  | On method h => (on c method h, [])
  | SetLoggingMode b => (setLoggingMode c b, [])
  | Deliver m => receive c m
  | Terminate => close c
  end.

(** The run of [ops] from [c]: the final state and, step by step, what
    each operation caused. *)
Fixpoint run (c : conn) (ops : list op) : conn * list (op * list effect) :=
  match ops with
  | [] => (c, [])
  | o :: rest =>
      let '(c1, es) := step c o in
      let '(c2, log) := run c1 rest in
      (c2, (o, es) :: log)
  end.

Definition final (c : conn) (ops : list op) : conn := (run c ops).1.
Definition history (c : conn) (ops : list op) : list (op * list effect) :=
  (run c ops).2.

(** All effects of a run, in order. *)
Definition effects (log : list (op * list effect)) : list effect :=
  concat (snd <$> log).

(** ** Observations *)

(** The settlements of promise [p] in a list of effects. *)
Definition settles (p : promise) (e : effect) : bool :=
  match e with
  | Resolve q _ | Reject q _ => bool_decide (q = p)
  | _ => false
  end.

Definition settlements_of (p : promise) (es : list effect) : list effect :=
  List.filter (settles p) es.

(** The correlation ids written to the Transport, in order. *)
Definition written_id (e : effect) : option Z :=
  match e with
  | Write m => msg_id m
  | _ => None
  end.

Definition assigned_ids (es : list effect) : list Z :=
  omap written_id es.

(** The handler calls, in order. *)
Definition invocation (e : effect) : option (handler * option payload) :=
  match e with
  | Invoke h ps => Some (h, ps)
  | _ => None
  end.

Definition invocations (es : list effect) : list (handler * option payload) :=
  omap invocation es.

(** The handlers registered for [method] by a list of operations, one
    entry per registration, in registration order. *)
Definition registered (method : jsstring) (ops : list op) : list handler :=
  omap (λ o, match o with
             | On m h => if bool_decide (m = method) then Some h else None
             | _ => None
             end) ops.

(** What is left of a run when the diagnostic sink is not looked at and
    the calls to [setLoggingMode] are taken out. *)
Definition is_trace (e : effect) : bool :=
  match e with Trace _ _ => true | _ => false end.

Definition is_toggle (o : op) : bool :=
  match o with SetLoggingMode _ => true | _ => false end.

Definition without_toggles (ops : list op) : list op :=
  List.filter (λ o, negb (is_toggle o)) ops.

Definition visible (es : list effect) : list effect :=
  List.filter (λ e, negb (is_trace e)) es.

Definition observable (log : list (op * list effect))
  : list (op * list effect) :=
  (λ oe, (oe.1, visible oe.2)) <$>
    List.filter (λ oe, negb (is_toggle oe.1)) log.

Definition is_resolve (e : effect) : bool :=
  match e with Resolve _ _ => true | _ => false end.

(** A batch of [send] calls issued back to back: the state they leave,
    for each call the promise it returned and the ids it wrote, and the
    effects of the batch. *)
Fixpoint send_all (c : conn) (cmds : list (N * jsstring * option payload))
  : conn * list (promise * list Z) * list effect :=
  match cmds with
  | [] => (c, [], [])
  | (now, method, params) :: rest =>
      let '(c1, p, es) := send c now method params in
      let '(c2, issued, es') := send_all c1 rest in
      (c2, (p, assigned_ids es) :: issued, es ++ es')
  end.

(** Everything of a Connection but its logging mode. *)
Definition same_but_logging (c1 c2 : conn) : Prop :=
  lifecycle_state c1 = lifecycle_state c2 ∧ next_id c1 = next_id c2 ∧
  next_promise c1 = next_promise c2 ∧ pending c1 = pending c2 ∧
  registry c1 = registry c2.

(** The table is well formed: each entry sits under its own id, ids and
    promises in it were handed out before, and no promise is pending
    under two ids. *)
Definition wf (c : conn) : Prop :=
  (∀ id pc, pending c !! id = Some pc →
     pc_id pc = id ∧ id < next_id c ∧ (pc_promise pc < next_promise c)%nat) ∧
  (∀ id1 id2 pc1 pc2,
     pending c !! id1 = Some pc1 → pending c !! id2 = Some pc2 →
     pc_promise pc1 = pc_promise pc2 → id1 = id2).

End Core.

Global Arguments message : clear implicits.
Global Arguments error : clear implicits.
Global Arguments effect : clear implicits.
Global Arguments op : clear implicits.

End Connection.

(** * The App (src/App.tsx)

    Every method and handler of the class is a computation over the
    component's [state], the ambient [window.devicePixelRatio] and the log
    of [connection.send] calls; it completes normally or throws, and what
    it did before throwing stays done. A conversion ([Math.floor], [*],
    [-], a template literal) is run where the source evaluates it, so a
    [TypeError] it raises comes after the effects that precede it in the
    source and before those that follow.

    - [this.connection.send(m, p)] is recorded as a [call]; the code that
      the source attaches to the returned promise (a [.then] callback, the
      rest of an [async] function after [await]) is named by the call's
      [reaction] and run by [react] when the promise settles.
    - [this.setState(s)] replaces the state at once. The handlers and
      promise callbacks below run outside React's batched event handlers,
      where React applies an update before [setState] returns; in
      [onToolbarActionInvoked], which a React event handler may call,
      [this.state] is read only to build the argument, so applying the
      update at once or at the end of the batch gives the same state. *)
Module App.
Import JS.

Section Controller.
Context `{JSNumber}.

(** [interface IState]. TypeScript's types are erased: a field receives
    whatever the [any]-typed payload holds, so the fields fed from
    payloads are values; those only ever assigned literals or results of
    [===] keep their type. *)
Record ViewportMetadata := {
  height : value;
  width : value;
  isLoading : bool;
  loadingPercent : number;
}.

Record History := {
  canGoBack : bool;
  canGoForward : bool;
}.

Record IState := {
  frame : value;
  url : value;
  verbose : value;
  viewportMetadata : ViewportMetadata;
  history : History;
}.

(** [App.defaultSettings] and the state set up by the constructor. *)
Definition defaultSettings_url : value := VStr (lit "about:blank").
Definition defaultSettings_verbose : value := VBool false.

Definition initial_state : IState :=
  {| frame := VNull;
     url := defaultSettings_url;
     verbose := defaultSettings_verbose;
     history := {| canGoBack := false; canGoForward := false |};
     viewportMetadata :=
       {| height := VNum (num_of_Z 0);
          isLoading := false;
          loadingPercent := num_of_Z 0;
          width := VNum (num_of_Z 0) |} |}.

(** What the source attaches to the promise a [send] returns. *)
Inductive reaction :=
  | Discarded                             (* the promise is dropped *)
  | ThenViewportResized (data : value)    (* [.then] in [onViewportChanged] *)
  | AwaitNavigationHistory.               (* [await] in [requestNavigationHistory] *)

(** One [this.connection.send(method, params)]; an omitted [params] is
    [undefined]. *)
Record call := Call {
  method : value;
  params : value;
  call_reaction : reaction;
}.

Record world := World {
  state : IState;
  devicePixelRatio : number;
  sent : list call;
}.

Definition M (A : Type) : Type := world → completion A * world.

Definition ret {A} (a : A) : M A := λ w, (Normal a, w).

Definition bind {A B} (m : M A) (k : A → M B) : M B :=
  λ w, match m w with
       | (Normal a, w') => k a w'
       | (Throw e, w') => (Throw e, w')
       end.

Definition throw {A} (e : exn) : M A := λ w, (Throw e, w).

Definition lift {A} (c : completion A) : M A :=
  match c with
  | Normal a => ret a
  | Throw e => throw e
  end.

Notation "'let*' x ':=' m 'in' k" := (bind m (λ x, k))
  (at level 10, x name, m at level 100, k at level 200, only parsing).
Notation "m ';;' k" := (bind m (λ _, k))
  (at level 100, k at level 200, right associativity, only parsing).

Definition this_state : M IState := λ w, (Normal (state w), w).

Definition window_devicePixelRatio : M number :=
  λ w, (Normal (devicePixelRatio w), w).

Definition setState (s : IState) : M unit :=
  λ w, (Normal tt,
        {| state := s; devicePixelRatio := devicePixelRatio w;
           sent := sent w |}).

Definition connection_send (m p : value) (r : reaction) : M unit :=
  λ w, (Normal tt,
        {| state := state w; devicePixelRatio := devicePixelRatio w;
           sent := sent w ++ [Call m p r] |}).

(** [public stopCasting()] *)
Definition stopCasting : M unit :=
  connection_send (VStr (lit "Page.stopScreencast")) VUndefined Discarded.

(** [public startCasting()] *)
Definition startCasting : M unit :=
  let* s := this_state in
  let* dpr := window_devicePixelRatio in
  let* w := lift (to_number (width (viewportMetadata s))) in
  let* h := lift (to_number (height (viewportMetadata s))) in
  connection_send (VStr (lit "Page.startScreencast"))
    (VObj
       [(lit "format", VStr (lit "jpeg"));
        (lit "maxWidth", VNum (Math_floor (num_mul w dpr)));
        (lit "maxHeight", VNum (Math_floor (num_mul h dpr)))])
    Discarded.

(** [private async requestNavigationHistory()], up to its [await]. *)
Definition requestNavigationHistory : M unit :=
  connection_send (VStr (lit "Page.getNavigationHistory")) VUndefined
    AwaitNavigationHistory.

(** [requestNavigationHistory], from the [await] on, with the value the
    promise resolved to. *)
Definition requestNavigationHistory_resume (history_ : value) : M unit :=
  if negb (truthy history_) then ret tt
  else
    let* historyIndex := lift (get history_ (lit "currentIndex")) in
    let* historyEntries := lift (get history_ (lit "entries")) in
    let* currentEntry := lift (get_elem historyEntries historyIndex) in
    let* url0 := lift (get currentEntry (lit "url")) in
    let* url1 :=
      match url0 with
      | VStr s =>
          ret (match match_http s with
               | Some g => VStr g
               | None => url0
               end)
      | _ => throw TypeError
      end in
    let* s := this_state in
    let* len := lift (get historyEntries (lit "length")) in
    let* n := lift (to_number len) in
    setState
      {| frame := frame s;
         url := url1;
         verbose := verbose s;
         viewportMetadata := viewportMetadata s;
         history :=
           {| canGoBack := strict_eq_num historyIndex (num_of_Z 0);
              canGoForward :=
                strict_eq_num historyIndex (num_sub n (num_of_Z 1)) |} |};;
    let* title := lift (get currentEntry (lit "title")) in
    let* url2 := lift (get currentEntry (lit "url")) in
    let panelTitle := if truthy title then title else url2 in
    let* shown := lift (to_string panelTitle) in
    connection_send (VStr (lit "extension.updateTitle"))
      (VObj
         [(lit "title",
           VStr (lit "Browser Preview (" ++ shown ++ lit ")"))])
      Discarded.

(** The [.then] callback of the ['size'] case of [onViewportChanged]. *)
Definition onViewportChanged_then (data : value) : M unit :=
  let* s := this_state in
  let* h := lift (get data (lit "height")) in
  let* w := lift (get data (lit "width")) in
  setState
    {| frame := frame s;
       url := url s;
       verbose := verbose s;
       viewportMetadata :=
         {| height := h;
            width := w;
            isLoading := isLoading (viewportMetadata s);
            loadingPercent := loadingPercent (viewportMetadata s) |};
       history := history s |};;
  startCasting.

(** [private onViewportChanged(action, data)] *)
Definition onViewportChanged (action data : value) : M unit :=
  if strict_eq_str action (lit "interaction") then
    let* a := lift (get data (lit "action")) in
    let* p := lift (get data (lit "params")) in
    connection_send a p Discarded
  else if strict_eq_str action (lit "size") then
    stopCasting;;
    let* h := lift (get data (lit "height")) in
    let* hn := lift (to_number h) in
    let* w := lift (get data (lit "width")) in
    let* wn := lift (to_number w) in
    connection_send (VStr (lit "Page.setDeviceMetricsOverride"))
      (VObj
         [(lit "deviceScaleFactor", VNum (num_of_Z 2));
          (lit "height", VNum (Math_floor hn));
          (lit "mobile", VBool false);
          (lit "width", VNum (Math_floor wn))])
      (ThenViewportResized data)
  else ret tt.

(** [private onToolbarActionInvoked(action, data)] *)
Definition onToolbarActionInvoked (action data : value) : M unit :=
  if strict_eq_str action (lit "forward") then
    connection_send (VStr (lit "Page.goForward")) VUndefined Discarded
  else if strict_eq_str action (lit "backward") then
    connection_send (VStr (lit "Page.goBackward")) VUndefined Discarded
  else if strict_eq_str action (lit "refresh") then
    connection_send (VStr (lit "Page.reload")) VUndefined Discarded
  else if strict_eq_str action (lit "urlChange") then
    let* u := lift (get data (lit "url")) in
    connection_send (VStr (lit "Page.navigate")) (VObj [(lit "url", u)])
      Discarded;;
    let* s := this_state in
    let* u' := lift (get data (lit "url")) in
    setState
      {| frame := frame s;
         url := u';
         verbose := verbose s;
         viewportMetadata := viewportMetadata s;
         history := history s |}
  else ret tt.

(** The handler the constructor registers for ['Page.frameNavigated']. *)
Definition on_Page_frameNavigated (result : value) : M unit :=
  let* frame_ := lift (get result (lit "frame")) in
  let* parentId := lift (get frame_ (lit "parentId")) in
  let isMainFrame := negb (truthy parentId) in
  if isMainFrame then
    requestNavigationHistory;;
    let* s := this_state in
    setState
      {| frame := frame s;
         url := url s;
         verbose := verbose s;
         viewportMetadata :=
           {| height := height (viewportMetadata s);
              width := width (viewportMetadata s);
              isLoading := true;
              loadingPercent := num_0_1 |};
         history := history s |}
  else ret tt.

(** The handler the constructor registers for ['Page.screencastFrame']. *)
Definition on_Page_screencastFrame (result : value) : M unit :=
  let* sessionId := lift (get result (lit "sessionId")) in
  let* data := lift (get result (lit "data")) in
  let* metadata := lift (get result (lit "metadata")) in
  connection_send (VStr (lit "Page.screencastFrameAck"))
    (VObj [(lit "sessionId", sessionId)]) Discarded;;
  let* s := this_state in
  setState
    {| frame := VObj [(lit "base64Data", data); (lit "metadata", metadata)];
       url := url s;
       verbose := verbose s;
       viewportMetadata := viewportMetadata s;
       history := history s |}.

(** How a promise returned by [send] settles. *)
Inductive outcome :=
  | Fulfilled (v : value)
  | Rejected (reason : value).

(** What the App runs when the promise of a call settles. A rejection
    reaches no code of the App: [.then] was given no rejection callback,
    and nothing awaits the promise of [requestNavigationHistory]. *)
Definition react (r : reaction) (o : outcome) : M unit :=
  match r, o with
  | Discarded, _ => ret tt
  | ThenViewportResized data, Fulfilled _ => onViewportChanged_then data
  | ThenViewportResized _, Rejected _ => ret tt
  | AwaitNavigationHistory, Fulfilled v => requestNavigationHistory_resume v
  | AwaitNavigationHistory, Rejected _ => ret tt
  end.

End Controller.

End App.

(** * The rest of the App (src/App.tsx)

    The remaining handlers of the constructor, the constructor itself,
    [componentDidUpdate] and [render]. Besides the [world] of the
    callbacks above they touch three more things, each kept as the log of
    the calls made: [setTimeout], [connection.setLoggingMode] and
    [connection.on].

    React calls [componentDidUpdate] after every update of the component;
    it is a step of its own here. Its one effect is a line in the log of
    logging modes, which no other code reads, so running it right after
    the callback that caused the update, instead of inside that
    callback's [setState], changes no log. *)
Module Shell.
Import JS App.

Section Shell.
Context `{JSNumber}.

Notation "'let*' x ':=' m 'in' k" := (App.bind m (λ x, k))
  (at level 10, x name, m at level 100, k at level 200, only parsing).
Notation "m ';;' k" := (App.bind m (λ _, k))
  (at level 100, k at level 200, right associativity, only parsing).

(** [undefined] and [null], the two values a property read throws on. *)
Definition is_nullish (v : value) : bool :=
  match v with
  | VUndefined | VNull => true
  | _ => false
  end.

(** The handler the constructor registers for ['Page.windowOpen']. *)
Definition on_Page_windowOpen (result : value) : M unit :=
  let* u := lift (get result (lit "url")) in
  connection_send (VStr (lit "extension.windowOpenRequested"))
    (VObj [(lit "url", u)]) Discarded.

(** The handler the constructor registers for
    ['extension.appConfiguration']. [setState] is given the two fields
    [url] and [verbose] only; React merges them into the current state. *)
Definition on_extension_appConfiguration (result : value) : M unit :=
  let* settings := lift (get result (lit "settings")) in
  if negb (truthy settings) then ret tt
  else
    let* startUrl := lift (get settings (lit "startUrl")) in
    let* verbose_ := lift (get settings (lit "verbose")) in
    let* s := this_state in
    setState
      {| frame := frame s;
         url := if truthy startUrl then startUrl else defaultSettings_url;
         verbose :=
           if truthy verbose_ then verbose_ else defaultSettings_verbose;
         viewportMetadata := viewportMetadata s;
         history := history s |};;
    let* startUrl' := lift (get settings (lit "startUrl")) in
    if truthy startUrl' then
      let* u := lift (get settings (lit "startUrl")) in
      connection_send (VStr (lit "Page.navigate")) (VObj [(lit "url", u)])
        Discarded
    else ret tt.

(** The first half of the ['Page.loadEventFired'] handler: the update
    made before the timer is set. The payload is not read. *)
Definition loadEventFired_update (result : value) : M unit :=
  let* s := this_state in
  setState
    {| frame := frame s;
       url := url s;
       verbose := verbose s;
       viewportMetadata :=
         {| height := height (viewportMetadata s);
            width := width (viewportMetadata s);
            isLoading := isLoading (viewportMetadata s);
            loadingPercent := num_of_Z 1 |};
       history := history s |}.

(** The arrow function the ['Page.loadEventFired'] handler hands to
    [setTimeout]. *)
Definition loadEventFired_timeout : M unit :=
  let* s := this_state in
  setState
    {| frame := frame s;
       url := url s;
       verbose := verbose s;
       viewportMetadata :=
         {| height := height (viewportMetadata s);
            width := width (viewportMetadata s);
            isLoading := false;
            loadingPercent := num_of_Z 0 |};
       history := history s |}.

(** The callbacks given to [setTimeout], and those given to
    [connection.on]. *)
Inductive timer_callback := LoadingDone.

Inductive handler_name :=
  | HFrameNavigated
  | HLoadEventFired
  | HScreencastFrame
  | HWindowOpen
  | HAppConfiguration.

(** The App and what it did to its surroundings besides sending. *)
Record shell := MkShell {
  app : world;
  timers : list (timer_callback * Z);             (* setTimeout(cb, ms) *)
  logging_modes : list value;                     (* setLoggingMode(v) *)
  registrations : list (jsstring * handler_name); (* on(name, handler) *)
}.

Definition ShellM (A : Type) : Type := shell → completion A * shell.

Definition sbind {A B} (m : ShellM A) (k : A → ShellM B) : ShellM B :=
  λ s, match m s with
       | (Normal a, s') => k a s'
       | (Throw e, s') => (Throw e, s')
       end.

Notation "m '>>' k" := (sbind m (λ _, k))
  (at level 100, k at level 200, right associativity, only parsing).

(** A computation of the App proper, run inside the shell. *)
Definition in_app {A} (m : M A) : ShellM A :=
  λ s, let '(r, w) := m (app s) in
       (r, {| app := w; timers := timers s;
              logging_modes := logging_modes s;
              registrations := registrations s |}).

Definition setTimeout (cb : timer_callback) (ms : Z) : ShellM unit :=
  λ s, (Normal tt,
        {| app := app s; timers := timers s ++ [(cb, ms)];
           logging_modes := logging_modes s;
           registrations := registrations s |}).

Definition connection_setLoggingMode (v : value) : ShellM unit :=
  λ s, (Normal tt,
        {| app := app s; timers := timers s;
           logging_modes := logging_modes s ++ [v];
           registrations := registrations s |}).

Definition connection_on (name : jsstring) (h : handler_name) : ShellM unit :=
  λ s, (Normal tt,
        {| app := app s; timers := timers s;
           logging_modes := logging_modes s;
           registrations := registrations s ++ [(name, h)] |}).

(** The handler the constructor registers for ['Page.loadEventFired']. *)
Definition on_Page_loadEventFired (result : value) : ShellM unit :=
  in_app (loadEventFired_update result) >>
  setTimeout LoadingDone 500.

(** What a registered handler runs on a notification's payload. *)
Definition handle (h : handler_name) (result : value) : ShellM unit :=
  match h with
  | HFrameNavigated => in_app (on_Page_frameNavigated result)
  | HLoadEventFired => on_Page_loadEventFired result
  | HScreencastFrame => in_app (on_Page_screencastFrame result)
  | HWindowOpen => in_app (on_Page_windowOpen result)
  | HAppConfiguration => in_app (on_extension_appConfiguration result)
  end.

(** What a timer runs when it fires. *)
Definition fire (cb : timer_callback) : ShellM unit :=
  match cb with
  | LoadingDone => in_app loadEventFired_timeout
  end.

(** The component before its constructor body runs, on a display of the
    given pixel ratio: [this.state] holds the initial state. *)
Definition blank (dpr : number) : shell :=
  {| app := {| state := initial_state; devicePixelRatio := dpr; sent := [] |};
     timers := []; logging_modes := []; registrations := [] |}.

(** [constructor(props)], after the assignment of [this.state]. *)
Definition constructor : ShellM unit :=
  (λ s, connection_setLoggingMode (verbose (state (app s))) s) >>
  connection_on (lit "Page.frameNavigated") HFrameNavigated >>
  connection_on (lit "Page.loadEventFired") HLoadEventFired >>
  connection_on (lit "Page.screencastFrame") HScreencastFrame >>
  connection_on (lit "Page.windowOpen") HWindowOpen >>
  connection_on (lit "extension.appConfiguration") HAppConfiguration >>
  in_app (connection_send (VStr (lit "Page.enable")) VUndefined Discarded) >>
  in_app requestNavigationHistory.

Definition constructed (dpr : number) : shell := (constructor (blank dpr)).2.

(** [public componentDidUpdate()] *)
Definition componentDidUpdate : ShellM unit :=
  λ s, connection_setLoggingMode (verbose (state (app s))) s.

(** [public render()]: the props handed to [Toolbar] and [Viewport]; the
    two callback props are the bound methods [onToolbarActionInvoked] and
    [onViewportChanged]. *)
Record ToolbarProps := {
  toolbar_url : value;
  toolbar_canGoBack : bool;
  toolbar_canGoForward : bool;
}.

Record ViewportProps := {
  viewport_showLoading : bool;
  viewport_width : value;
  viewport_height : value;
  viewport_loadingPercent : number;
  viewport_frame : value;
}.

Definition render (s : IState) : ToolbarProps * ViewportProps :=
  ({| toolbar_url := url s;
      toolbar_canGoBack := canGoBack (history s);
      toolbar_canGoForward := canGoForward (history s) |},
   {| viewport_showLoading := isLoading (viewportMetadata s);
      viewport_width := width (viewportMetadata s);
      viewport_height := height (viewportMetadata s);
      viewport_loadingPercent := loadingPercent (viewportMetadata s);
      viewport_frame := frame s |}).

(** ** Runs of the App

    Everything that can call into the App after construction: the
    Connection calling a registered handler, the two components calling
    their callback props, a promise of [send] settling, a timer firing,
    React reporting an update. An exception ends the callback that raised
    it and nothing else: the next event finds the App as that callback
    left it. *)
Inductive event :=
  | Notify (h : handler_name) (payload : value)
  | ToolbarAction (action data : value)
  | ViewportChange (action data : value)
  | Settle (r : reaction) (o : outcome)
  | TimerFired (cb : timer_callback)
  | DidUpdate.

Definition dispatch (e : event) : ShellM unit :=
  match e with
  | Notify h payload => handle h payload
  | ToolbarAction action data => in_app (onToolbarActionInvoked action data)
  | ViewportChange action data => in_app (onViewportChanged action data)
  | Settle r o => in_app (react r o)
  | TimerFired cb => fire cb
  | DidUpdate => componentDidUpdate
  end.

Fixpoint run (evs : list event) (s : shell) : shell :=
  match evs with
  | [] => s
  | e :: rest => run rest (dispatch e s).2
  end.

(** ** What the runs are observed through *)

(** The loading indicator is in one of the four combinations the source
    assigns: idle, started, loaded while shown, loaded while hidden. *)
Definition loading_ok (s : IState) : Prop :=
  let vm := viewportMetadata s in
  (isLoading vm = false ∧ loadingPercent vm = num_of_Z 0) ∨
  (isLoading vm = true ∧ loadingPercent vm = num_0_1) ∨
  (isLoading vm = true ∧ loadingPercent vm = num_of_Z 1) ∨
  (isLoading vm = false ∧ loadingPercent vm = num_of_Z 1).

(** A logging mode is the literal [false] or a truthy value. *)
Definition boolean_like (v : value) : Prop :=
  v = VBool false ∨ truthy v = true.

(** The commands the source names, by what is attached to their
    promise. *)
Definition discarded_commands : list jsstring :=
  lit <$> ["Page.enable"; "Page.navigate"; "Page.reload"; "Page.goForward";
           "Page.goBackward"; "Page.startScreencast"; "Page.stopScreencast";
           "Page.screencastFrameAck"; "extension.updateTitle";
           "extension.windowOpenRequested"]%string.

Definition named_command (c : call) : bool :=
  match method c, call_reaction c with
  | VStr s, Discarded => bool_decide (s ∈ discarded_commands)
  | VStr s, ThenViewportResized _ =>
      bool_decide (s = lit "Page.setDeviceMetricsOverride")
  | VStr s, AwaitNavigationHistory =>
      bool_decide (s = lit "Page.getNavigationHistory")
  | _, _ => false
  end.

(** [action] is one of the strings a [switch] of the source has a case
    for. *)
Definition has_case (cases : list jsstring) (action : value) : bool :=
  match action with
  | VStr s => bool_decide (s ∈ cases)
  | _ => false
  end.

Definition toolbar_cases : list jsstring :=
  lit <$> ["forward"; "backward"; "refresh"; "urlChange"]%string.

Definition viewport_cases : list jsstring :=
  lit <$> ["interaction"; "size"]%string.

(** A viewport ['interaction'], which forwards a command of the
    component's choosing. *)
Definition is_interaction (e : event) : bool :=
  match e with
  | ViewportChange action _ => strict_eq_str action (lit "interaction")
  | _ => false
  end.

(** The acknowledgements among the commands sent, and the
    acknowledgement a frame notification calls for. *)
Definition is_ack (c : call) : bool :=
  strict_eq_str (method c) (lit "Page.screencastFrameAck").

Definition acks (cs : list call) : list value :=
  params <$> List.filter is_ack cs.

Definition ack_due (e : event) : list value :=
  match e with
  | Notify HScreencastFrame payload =>
      match get payload (lit "sessionId") with
      | Normal sid => [VObj [(lit "sessionId", sid)]]
      | Throw _ => []
      end
  | _ => []
  end.

(** The frame a notification asks the viewport to show, if any. *)
Definition frame_due (e : event) : option value :=
  match e with
  | Notify HScreencastFrame payload =>
      match get payload (lit "data"), get payload (lit "metadata") with
      | Normal data, Normal metadata =>
          Some (VObj [(lit "base64Data", data); (lit "metadata", metadata)])
      | _, _ => None
      end
  | _ => None
  end.

(** The frame shown after a list of events, starting from [f]: that of
    the last event that brought one. *)
Fixpoint latest_frame (evs : list event) (f : value) : value :=
  match evs with
  | [] => f
  | e :: rest => latest_frame rest (default f (frame_due e))
  end.

Definition is_configuration (e : event) : bool :=
  match e with
  | Notify HAppConfiguration _ => true
  | _ => false
  end.

Definition is_update (e : event) : bool :=
  match e with
  | DidUpdate => true
  | _ => false
  end.

(** The timers an event sets. *)
Definition timers_due (e : event) : list (timer_callback * Z) :=
  match e with
  | Notify HLoadEventFired _ => [(LoadingDone, 500)]
  | _ => []
  end.

End Shell.

End Shell.

(** * An arithmetic to run examples on

    Exact rationals, with [None] for NaN, stand in for doubles when the
    definitions are evaluated on concrete inputs; no theorem above the
    examples depends on them. They differ from IEEE arithmetic where a
    double rounds (products and differences are exact here), in having no
    infinities, in reading no numeral with white space, an exponent or a
    radix prefix, and in printing every integer in plain digits. The
    examples stay on small integers and one-decimal fractions, where the
    two agree. *)
Module Exact.

Definition number : Type := option Q.

Definition of_Z (z : Z) : number := Some (inject_Z z).

Definition strict_eq (a b : number) : bool :=
  match a, b with
  | Some x, Some y => Qeq_bool x y
  | _, _ => false
  end.

Definition is_truthy (a : number) : bool :=
  match a with
  | Some x => negb (Qeq_bool x 0)
  | None => false
  end.

Definition floor (a : number) : number :=
  match a with
  | Some x => Some (inject_Z (Qfloor x))
  | None => None
  end.

Definition mul (a b : number) : number :=
  match a, b with
  | Some x, Some y => Some (Qred (x * y))
  | _, _ => None
  end.

Definition sub (a b : number) : number :=
  match a, b with
  | Some x, Some y => Some (Qred (x - y))
  | _, _ => None
  end.

(** The digits of [r / d] after the point, for [0 <= r < d]. *)
Fixpoint fraction_digits (fuel : nat) (r d : Z) : jsstring :=
  match fuel with
  | O => []
  | S fuel' =>
      if (r =? 0)%Z then []
      else Z.to_N (48 + (10 * r) / d) :: fraction_digits fuel' ((10 * r) mod d) d
  end.

Definition show (a : number) : jsstring :=
  match a with
  | None => lit "NaN"
  | Some x =>
      let q := Qred x in
      let n := Qnum q in
      let d := Z.pos (Qden q) in
      if (d =? 1)%Z then lit (pretty n)
      else
        (if (n <? 0)%Z then lit "-" else []) ++
        lit (pretty (Z.abs n / d)) ++ lit "." ++
        fraction_digits 17 (Z.abs n mod d) d
  end.

Definition is_digit (c : code_unit) : bool := (48 <=? c)%N && (c <=? 57)%N.

Definition digits_value (ds : jsstring) : Z :=
  fold_left (λ acc c, 10 * acc + (Z.of_N c - 48)) ds 0.

Fixpoint leading_digits (s : jsstring) : jsstring :=
  match s with
  | c :: s' => if is_digit c then c :: leading_digits s' else []
  | [] => []
  end.

Fixpoint after_digits (s : jsstring) : jsstring :=
  match s with
  | c :: s' => if is_digit c then after_digits s' else s
  | [] => []
  end.

(** An unsigned decimal numeral [ddd] or [ddd.ddd]. *)
Definition read_unsigned (s : jsstring) : number :=
  let int_part := leading_digits s in
  let rest := after_digits s in
  match rest with
  | [] =>
      match int_part with
      | [] => None
      | _ => Some (inject_Z (digits_value int_part))
      end
  | c :: frac =>
      if bool_decide (c = 46%N) && forallb is_digit frac
         && negb (bool_decide (int_part ++ frac = []))
      then Some (Qred (inject_Z (digits_value (int_part ++ frac))
                       / inject_Z (10 ^ Z.of_nat (length frac))))
      else None
  end.

Definition read (s : jsstring) : number :=
  match s with
  | [] => Some 0%Q
  | c :: s' =>
      if bool_decide (c = 45%N)
      then match read_unsigned s' with
           | Some x => Some (Qred (- x))
           | None => None
           end
      else read_unsigned s
  end.

#[global] Instance exact_number : JS.JSNumber := {|
  JS.number := number;
  JS.num_of_Z := of_Z;
  JS.num_0_1 := Some (1 # 10)%Q;
  JS.num_NaN := None;
  JS.num_strict_eq := strict_eq;
  JS.num_truthy := is_truthy;
  JS.Math_floor := floor;
  JS.num_mul := mul;
  JS.num_sub := sub;
  JS.num_to_string := show;
  JS.num_of_string := read;
|}.

End Exact.

(** * Concrete inputs

    Payloads, worlds and runs on which the definitions are evaluated. *)
Module Samples.
Import JS App Exact Connection.

(** An integer, and a ratio, as values of the example arithmetic. *)
Definition int (z : Z) : @value exact_number := VNum (of_Z z).
Definition ratio (q : Q) : @value exact_number := VNum (Some q).

(** The App right after construction, on a display of pixel ratio 2. *)
Definition w0 : world := World initial_state (of_Z 2) [].

Definition size_data : value :=
  VObj [(lit "width", ratio (1001 # 10)); (lit "height", int 50)].

Definition frame_data : value :=
  VObj [(lit "sessionId", int 3);
        (lit "data", VStr (lit "/9j/4AAQ"));
        (lit "metadata", VObj [(lit "pageScaleFactor", int 1)])].

Definition history_data (entry_url entry_title : string) : value :=
  VObj [(lit "currentIndex", int 0);
        (lit "entries",
         VArr [VObj [(lit "url", VStr (lit entry_url));
                     (lit "title", VStr (lit entry_title))]])].

(** Messages of the Transport, with strings for payloads. *)
Definition response_ok (id : Z) (r : string) : message string :=
  Message (Some id) None None (Some r) None.

Definition response_error (id : Z) (e : string) : message string :=
  Message (Some id) None None None (Some e).

Definition notification (method : string) (ps : string) : message string :=
  Message None (Some (lit method)) (Some ps) None None.

(** Two commands, and their responses arriving in the opposite order,
    a notification in between. *)
Definition two_commands : list (N * jsstring * option string) :=
  [(0%N, lit "Page.navigate", Some "http://x");
   (5%N, lit "Page.reload", None)].

Definition two_responses : list (message string) :=
  [response_ok 8 "reloaded";
   notification "Page.frameNavigated" "frame";
   response_error 7 "net::ERR"].

(** A run that sends, hears a response and sends again. *)
Definition busy_run : list (op string) :=
  [Send 0 (lit "Page.enable") None;
   Send 1 (lit "Page.navigate") (Some "http://x");
   Deliver (response_ok 7 "enabled");
   Send 9 (lit "Page.reload") None].

(** Registrations: [h1], [h2], then [h1] again, for one event name, with
    a registration for another name in between. *)
Definition registrations : list (op string) :=
  [On (lit "Page.loadEventFired") 1%nat;
   On (lit "Page.frameNavigated") 9%nat;
   On (lit "Page.loadEventFired") 2%nat;
   On (lit "Page.loadEventFired") 1%nat].

(** The same traffic, with the logging mode left alone and with the
    logging mode toggled in between. *)
Definition quiet_run : list (op string) :=
  [On (lit "Page.loadEventFired") 1%nat;
   Send 0 (lit "Page.navigate") (Some "http://x");
   Deliver (notification "Page.loadEventFired" "t=1");
   Deliver (response_ok 7 "done")].

Definition chatty_run : list (op string) :=
  [SetLoggingMode true;
   On (lit "Page.loadEventFired") 1%nat;
   Send 0 (lit "Page.navigate") (Some "http://x");
   SetLoggingMode false;
   Deliver (notification "Page.loadEventFired" "t=1");
   SetLoggingMode true;
   Deliver (response_ok 7 "done")].

End Samples.

(** * More concrete inputs: events and runs of the App *)
Module ShellSamples.
Import JS App Shell Exact Samples.

(** The App as constructed on a display of pixel ratio 2. *)
Definition s0 : shell := constructed (of_Z 2).

(** A main-frame navigation: the frame has no [parentId]. *)
Definition main_frame : value :=
  VObj [(lit "frame", VObj [(lit "id", VStr (lit "F0"))])].

(** A navigation payload that lacks its [frame]. *)
Definition no_frame : value := VObj [(lit "timestamp", int 1)].

(** A history whose [currentIndex] points past its one entry. *)
Definition stale_history : value :=
  VObj [(lit "currentIndex", int 1);
        (lit "entries",
         VArr [VObj [(lit "url", VStr (lit "http://example.com/a"));
                     (lit "title", VStr (lit "Example"))]])].

Definition configuration : value :=
  VObj [(lit "settings",
         VObj [(lit "startUrl", VStr (lit "http://localhost:3000"));
               (lit "verbose", VBool true)])].

(** A session without viewport interactions: navigation, a frame, an
    update, a typed url, the load event and its timer, a frame
    notification without payload, the navigation history, a resize and
    its fulfilment. *)
Definition session : list event :=
  [Notify HFrameNavigated main_frame;
   Notify HScreencastFrame frame_data;
   DidUpdate;
   ToolbarAction (VStr (lit "urlChange"))
     (VObj [(lit "url", VStr (lit "example.com"))]);
   Notify HLoadEventFired VUndefined;
   TimerFired LoadingDone;
   Notify HScreencastFrame VUndefined;
   Settle AwaitNavigationHistory
     (Fulfilled (history_data "http://example.com/a" "Example"));
   DidUpdate;
   ViewportChange (VStr (lit "size")) size_data;
   Settle (ThenViewportResized size_data) (Fulfilled VUndefined)].

End ShellSamples.

(** * The App: what each callback sends and stores *)
Module AppFacts.
Import JS App.

(** The [switch] of the source compares [action] with string literals. *)
Ltac switch_on_action :=
  repeat match goal with
  | |- context [strict_eq_str (VStr ?s) ?t] =>
      let b := eval vm_compute in (bool_decide (s = t)) in
      change (strict_eq_str (VStr s) t) with b
  end;
  cbv iota.

(** Run the monad: unfold its operations and use the known reads. *)
Ltac run_M :=
  unfold bind, lift, ret, throw, this_state, window_devicePixelRatio,
    setState, connection_send; cbv beta iota.

Section Facts.
Context `{JSNumber}.

(** C6. A viewport ['size'] change with [data] holding a [height] and a
    [width] that convert to numbers sends [Page.stopScreencast] and then
    [Page.setDeviceMetricsOverride] with [{deviceScaleFactor: 2, height:
    floor(height), mobile: false, width: floor(width)}], and nothing else
    happens at that point; when that call's promise is fulfilled, whatever
    the world then is, the viewport's height and width are stored and
    [Page.startScreencast] is sent with [format: 'jpeg'], [maxWidth =
    floor(width * devicePixelRatio)] and [maxHeight = floor(height *
    devicePixelRatio)]; a rejection triggers nothing. *)
Theorem onViewportChanged_size
    (data hv wv : value) (hn wn : number) (w : world) :
  get data (lit "height") = Normal hv →
  get data (lit "width") = Normal wv →
  to_number hv = Normal hn →
  to_number wv = Normal wn →
  onViewportChanged (VStr (lit "size")) data w =
    (Normal tt,
     {| state := state w;
        devicePixelRatio := devicePixelRatio w;
        sent := sent w ++
          [Call (VStr (lit "Page.stopScreencast")) VUndefined Discarded;
           Call (VStr (lit "Page.setDeviceMetricsOverride"))
             (VObj
                [(lit "deviceScaleFactor", VNum (num_of_Z 2));
                 (lit "height", VNum (Math_floor hn));
                 (lit "mobile", VBool false);
                 (lit "width", VNum (Math_floor wn))])
             (ThenViewportResized data)] |})
  ∧ (∀ (w' : world) (r : value),
       react (ThenViewportResized data) (Fulfilled r) w' =
         (Normal tt,
          {| state :=
               {| frame := frame (state w');
                  url := url (state w');
                  verbose := verbose (state w');
                  viewportMetadata :=
                    {| height := hv;
                       width := wv;
                       isLoading := isLoading (viewportMetadata (state w'));
                       loadingPercent :=
                         loadingPercent (viewportMetadata (state w')) |};
                  history := history (state w') |};
             devicePixelRatio := devicePixelRatio w';
             sent := sent w' ++
               [Call (VStr (lit "Page.startScreencast"))
                  (VObj
                     [(lit "format", VStr (lit "jpeg"));
                      (lit "maxWidth",
                       VNum (Math_floor (num_mul wn (devicePixelRatio w'))));
                      (lit "maxHeight",
                       VNum (Math_floor (num_mul hn (devicePixelRatio w'))))])
                  Discarded] |}))
  ∧ (∀ (w' : world) (e : value),
       react (ThenViewportResized data) (Rejected e) w' = (Normal tt, w')).
Proof.
  intros Hh Hw Hhn Hwn. repeat split.
  - unfold onViewportChanged. switch_on_action.
    unfold stopCasting. run_M. rewrite Hh. cbv beta iota.
    rewrite Hhn. cbv beta iota. rewrite Hw. cbv beta iota.
    rewrite Hwn. cbn. by rewrite <- app_assoc.
  - intros w' r. unfold react, onViewportChanged_then, startCasting.
    run_M. rewrite Hh. cbv beta iota. rewrite Hw. cbv beta iota.
    cbn [state viewportMetadata width height].
    rewrite Hwn. cbv beta iota. rewrite Hhn. reflexivity.
Qed.

(** C7. The toolbar's ['urlChange'] sends exactly one [Page.navigate] with
    [{url: data.url}] and stores [data.url] as [state.url]; ['forward'],
    ['backward'] and ['refresh'] send [Page.goForward], [Page.goBackward]
    and [Page.reload], without params and without touching the state. *)
Theorem onToolbarActionInvoked_commands (data u : value) (w : world) :
  get data (lit "url") = Normal u →
  onToolbarActionInvoked (VStr (lit "urlChange")) data w =
    (Normal tt,
     {| state :=
          {| frame := frame (state w);
             url := u;
             verbose := verbose (state w);
             viewportMetadata := viewportMetadata (state w);
             history := history (state w) |};
        devicePixelRatio := devicePixelRatio w;
        sent := sent w ++
          [Call (VStr (lit "Page.navigate")) (VObj [(lit "url", u)])
             Discarded] |})
  ∧ (∀ data' : value,
       onToolbarActionInvoked (VStr (lit "forward")) data' w =
         (Normal tt,
          {| state := state w;
             devicePixelRatio := devicePixelRatio w;
             sent := sent w ++
               [Call (VStr (lit "Page.goForward")) VUndefined Discarded] |})
       ∧ onToolbarActionInvoked (VStr (lit "backward")) data' w =
         (Normal tt,
          {| state := state w;
             devicePixelRatio := devicePixelRatio w;
             sent := sent w ++
               [Call (VStr (lit "Page.goBackward")) VUndefined Discarded] |})
       ∧ onToolbarActionInvoked (VStr (lit "refresh")) data' w =
         (Normal tt,
          {| state := state w;
             devicePixelRatio := devicePixelRatio w;
             sent := sent w ++
               [Call (VStr (lit "Page.reload")) VUndefined Discarded] |})).
Proof.
  intros Hu. split.
  - unfold onToolbarActionInvoked. switch_on_action.
    run_M. rewrite Hu. reflexivity.
  - intros data'. repeat split;
      unfold onToolbarActionInvoked; switch_on_action; reflexivity.
Qed.

(** C8. The ['Page.screencastFrame'] handler, on a payload holding
    [sessionId], [data] and [metadata], sends exactly one
    [Page.screencastFrameAck] with [{sessionId}] of the frame received and
    stores [{base64Data: data, metadata: metadata}] as [state.frame]. *)
Theorem screencastFrame_acknowledged
    (result sessionId data metadata : value) (w : world) :
  get result (lit "sessionId") = Normal sessionId →
  get result (lit "data") = Normal data →
  get result (lit "metadata") = Normal metadata →
  on_Page_screencastFrame result w =
    (Normal tt,
     {| state :=
          {| frame :=
               VObj [(lit "base64Data", data); (lit "metadata", metadata)];
             url := url (state w);
             verbose := verbose (state w);
             viewportMetadata := viewportMetadata (state w);
             history := history (state w) |};
        devicePixelRatio := devicePixelRatio w;
        sent := sent w ++
          [Call (VStr (lit "Page.screencastFrameAck"))
             (VObj [(lit "sessionId", sessionId)]) Discarded] |}).
Proof.
  intros Hs Hd Hm. unfold on_Page_screencastFrame.
  run_M. rewrite Hs. cbv beta iota. rewrite ?Hd. cbv beta iota.
  rewrite ?Hm. reflexivity.
Qed.

(** C10. The ['Page.frameNavigated'] handler, on a payload whose [frame]
    has a truthy [parentId], leaves the whole world as it was: state
    unchanged, nothing sent. When [parentId] is absent or falsy it sends
    [Page.getNavigationHistory] and sets [isLoading] to [true] and
    [loadingPercent] to [0.1], every other field of the state staying as
    it was. *)
Theorem frameNavigated_main_frame_only
    (result frame_ parentId : value) (w : world) :
  get result (lit "frame") = Normal frame_ →
  get frame_ (lit "parentId") = Normal parentId →
  on_Page_frameNavigated result w =
    (Normal tt,
     if truthy parentId then w
     else
       {| state :=
            {| frame := frame (state w);
               url := url (state w);
               verbose := verbose (state w);
               viewportMetadata :=
                 {| height := height (viewportMetadata (state w));
                    width := width (viewportMetadata (state w));
                    isLoading := true;
                    loadingPercent := num_0_1 |};
               history := history (state w) |};
          devicePixelRatio := devicePixelRatio w;
          sent := sent w ++
            [Call (VStr (lit "Page.getNavigationHistory")) VUndefined
               AwaitNavigationHistory] |}).
Proof.
  intros Hf Hp. unfold on_Page_frameNavigated, requestNavigationHistory.
  run_M. rewrite Hf. cbv beta iota. rewrite ?Hp. cbv beta iota.
  destruct (truthy parentId); reflexivity.
Qed.

Lemma strip_prefix_Some (p s rest : jsstring) :
  strip_prefix p s = Some rest ↔ s = p ++ rest.
Proof.
  revert s. induction p as [|a p IH]; intros [|b s]; simpl.
  - split; congruence.
  - split; congruence.
  - split; [discriminate | intros [=]].
  - case_bool_decide as Hab.
    + subst b. rewrite IH. split; congruence.
    + split; [discriminate | intros [=]; congruence].
Qed.

Lemma dot_plus_all (s : jsstring) :
  Forall (λ c, line_terminator c = false) s → dot_plus s = s.
Proof.
  induction 1 as [|c s Hc _ IH]; [done|].
  cbn [dot_plus]. by rewrite Hc, IH.
Qed.

(** On a url without line terminators the pattern removes the prefix
    exactly when something follows it. *)
Lemma match_http_without_terminators (u : jsstring) :
  Forall (λ c, line_terminator c = false) u →
  default u (match_http u) = http_removed_when_followed u.
Proof.
  intros Hu. unfold match_http, http_removed_when_followed.
  destruct (strip_prefix (lit "http://") u) as [rest|] eqn:Hp; [|done].
  apply strip_prefix_Some in Hp. rewrite Hp in Hu.
  apply Forall_app in Hu as [_ Hrest].
  rewrite (dot_plus_all rest Hrest). by destruct rest.
Qed.

(** C9, as amended. When [Page.getNavigationHistory] resolves with a
    truthy payload on which reading [entries[currentIndex]], computing
    [entries.length - 1] and building the title text raise no
    [TypeError], and the entry's [url] is a string without line
    terminators, the rest of [requestNavigationHistory] stores that url as
    [state.url] with a leading ['http://'] removed when at least one
    character follows the prefix (a url that is exactly ['http://'] is
    kept as it is); it sets [canGoBack] to [currentIndex === 0] and
    [canGoForward] to [currentIndex === entries.length - 1]; and it sends
    [extension.updateTitle] with title ['Browser Preview ('], then the
    entry's [title] if truthy and otherwise its url as received, then
    [')']. *)
Theorem navigation_history_applied
    (history_ idx entries entry title len : value) (u shown : jsstring)
    (n : number) (w : world) :
  truthy history_ = true →
  get history_ (lit "currentIndex") = Normal idx →
  get history_ (lit "entries") = Normal entries →
  get_elem entries idx = Normal entry →
  get entry (lit "url") = Normal (VStr u) →
  Forall (λ c, line_terminator c = false) u →
  get entry (lit "title") = Normal title →
  get entries (lit "length") = Normal len →
  to_number len = Normal n →
  to_string (if truthy title then title else VStr u) = Normal shown →
  react AwaitNavigationHistory (Fulfilled history_) w =
    (Normal tt,
     {| state :=
          {| frame := frame (state w);
             url := VStr (http_removed_when_followed u);
             verbose := verbose (state w);
             viewportMetadata := viewportMetadata (state w);
             history :=
               {| canGoBack := strict_eq_num idx (num_of_Z 0);
                  canGoForward :=
                    strict_eq_num idx (num_sub n (num_of_Z 1)) |} |};
        devicePixelRatio := devicePixelRatio w;
        sent := sent w ++
          [Call (VStr (lit "extension.updateTitle"))
             (VObj
                [(lit "title",
                  VStr (lit "Browser Preview (" ++ shown ++ lit ")"))])
             Discarded] |}).
Proof.
  intros Ht Hi He Hc Hu Hlt Hti Hl Hn Hs.
  rewrite <- (match_http_without_terminators u Hlt).
  unfold react, requestNavigationHistory_resume. rewrite Ht. cbv iota.
  change (negb true) with false. cbv iota.
  run_M. rewrite Hi. cbv beta iota. rewrite He. cbv beta iota.
  rewrite Hc. cbv beta iota. rewrite Hu. cbv beta iota.
  rewrite Hl. cbv beta iota. rewrite Hn. cbv beta iota.
  rewrite Hti. cbv beta iota. rewrite Hs. cbv beta iota.
  destruct (match_http u); reflexivity.
Qed.

End Facts.

(** ** The callbacks on concrete payloads *)
Import Samples.

Lemma onViewportChanged_size_witness :
  sent (onViewportChanged (VStr (lit "size")) size_data w0).2 =
    [Call (VStr (lit "Page.stopScreencast")) VUndefined Discarded;
     Call (VStr (lit "Page.setDeviceMetricsOverride"))
       (VObj [(lit "deviceScaleFactor", int 2);
              (lit "height", int 50);
              (lit "mobile", VBool false);
              (lit "width", int 100)])
       (ThenViewportResized size_data)]
  ∧ sent (react (ThenViewportResized size_data) (Fulfilled VUndefined) w0).2 =
    [Call (VStr (lit "Page.startScreencast"))
       (VObj [(lit "format", VStr (lit "jpeg"));
              (lit "maxWidth", int 200);
              (lit "maxHeight", int 100)])
       Discarded].
Proof.
  destruct (onViewportChanged_size size_data (int 50)
              (ratio (1001 # 10)) (Exact.of_Z 50) (Some (1001 # 10)%Q) w0
              eq_refl eq_refl eq_refl eq_refl)
    as (E1 & E2 & _).
  rewrite E1, E2. split; reflexivity.
Defined.

Lemma onToolbarActionInvoked_commands_witness :
  let data := VObj [(lit "url", VStr (lit "example.com"))] in
  onToolbarActionInvoked (VStr (lit "urlChange")) data w0 =
    (Normal tt,
     World
       {| frame := VNull;
          url := VStr (lit "example.com");
          verbose := VBool false;
          viewportMetadata := viewportMetadata initial_state;
          history := history initial_state |}
       (devicePixelRatio w0)
       [Call (VStr (lit "Page.navigate"))
          (VObj [(lit "url", VStr (lit "example.com"))]) Discarded]).
Proof.
  intros data.
  exact (proj1 (onToolbarActionInvoked_commands data
                  (VStr (lit "example.com")) w0 eq_refl)).
Defined.

Lemma screencastFrame_acknowledged_witness :
  sent (on_Page_screencastFrame frame_data w0).2 =
    [Call (VStr (lit "Page.screencastFrameAck"))
       (VObj [(lit "sessionId", int 3)]) Discarded].
Proof.
  rewrite (screencastFrame_acknowledged frame_data (int 3)
             (VStr (lit "/9j/4AAQ"))
             (VObj [(lit "pageScaleFactor", int 1)])
             w0 eq_refl eq_refl eq_refl).
  reflexivity.
Defined.

Lemma frameNavigated_main_frame_only_witness :
  on_Page_frameNavigated
    (VObj [(lit "frame", VObj [(lit "parentId", VStr (lit "F1"))])]) w0 =
    (Normal tt, w0)
  ∧ sent (on_Page_frameNavigated
            (VObj [(lit "frame", VObj [(lit "id", VStr (lit "F0"))])]) w0).2 =
    [Call (VStr (lit "Page.getNavigationHistory")) VUndefined
       AwaitNavigationHistory].
Proof.
  split.
  - exact (frameNavigated_main_frame_only
             (VObj [(lit "frame", VObj [(lit "parentId", VStr (lit "F1"))])])
             (VObj [(lit "parentId", VStr (lit "F1"))])
             (VStr (lit "F1")) w0 eq_refl eq_refl).
  - rewrite (frameNavigated_main_frame_only
               (VObj [(lit "frame", VObj [(lit "id", VStr (lit "F0"))])])
               (VObj [(lit "id", VStr (lit "F0"))])
               VUndefined w0 eq_refl eq_refl).
    reflexivity.
Defined.

Lemma navigation_history_applied_witness :
  let r := react AwaitNavigationHistory
             (Fulfilled (history_data "http://example.com/a" "Example")) w0 in
  url (state r.2) = VStr (lit "example.com/a") ∧
  sent r.2 =
    [Call (VStr (lit "extension.updateTitle"))
       (VObj [(lit "title", VStr (lit "Browser Preview (Example)"))])
       Discarded].
Proof.
  intros r. subst r.
  rewrite (navigation_history_applied
             (history_data "http://example.com/a" "Example")
             (int 0)
             (VArr [VObj [(lit "url", VStr (lit "http://example.com/a"));
                          (lit "title", VStr (lit "Example"))]])
             (VObj [(lit "url", VStr (lit "http://example.com/a"));
                    (lit "title", VStr (lit "Example"))])
             (VStr (lit "Example"))
             (int 1)
             (lit "http://example.com/a") (lit "Example")
             (Exact.of_Z 1) w0
             eq_refl eq_refl eq_refl eq_refl eq_refl
             ltac:(repeat constructor)
             eq_refl eq_refl eq_refl eq_refl).
  split; reflexivity.
Defined.

(** C9, as stated, fails: on an entry whose url is exactly ['http://'] the
    prefix is present, yet [state.url] keeps it, where removing it would
    leave the empty string. *)
Lemma bare_http_prefix_is_kept :
  let r := react AwaitNavigationHistory
             (Fulfilled (history_data "http://" "Example")) w0 in
  r.1 = Normal tt
  ∧ url (state r.2) = VStr (lit "http://")
  ∧ url (state r.2) ≠ VStr (leading_http_removed (lit "http://")).
Proof.
  intros r.
  assert (url (state r.2) = VStr (lit "http://")) as E by reflexivity.
  split; [reflexivity | split; [exact E|]].
  rewrite E. change (leading_http_removed (lit "http://")) with (@nil N).
  discriminate.
Qed.

End AppFacts.

(** * The Connection: correlation, dispatch, termination, logging *)
Module ConnectionFacts.
Import Connection.

Section Facts.
Context {payload : Type}.
Implicit Types (c : conn) (o : op payload) (ops : list (op payload)).
Implicit Types (m : message payload) (es : list (effect payload)).

(** ** Runs, step by step *)

Lemma final_nil c : final c ([] : list (op payload)) = c.
Proof. reflexivity. Qed.

Lemma history_nil c : history c ([] : list (op payload)) = [].
Proof. reflexivity. Qed.

Lemma final_cons c o ops : final c (o :: ops) = final (step c o).1 ops.
Proof.
  unfold final. simpl. destruct (step c o) as [c1 es]. simpl.
  by destruct (run c1 ops).
Qed.

Lemma history_cons c o ops :
  history c (o :: ops) = (o, (step c o).2) :: history (step c o).1 ops.
Proof.
  unfold history. simpl. destruct (step c o) as [c1 es]. simpl.
  by destruct (run c1 ops).
Qed.

Lemma final_app c ops1 ops2 :
  final c (ops1 ++ ops2) = final (final c ops1) ops2.
Proof.
  revert c. induction ops1 as [|o ops1 IH]; intros c; [done|].
  simpl. by rewrite !final_cons, IH.
Qed.

Lemma history_app c ops1 ops2 :
  history c (ops1 ++ ops2) = history c ops1 ++ history (final c ops1) ops2.
Proof.
  revert c. induction ops1 as [|o ops1 IH]; intros c; [done|].
  simpl. by rewrite !history_cons, final_cons, IH.
Qed.

Lemma effects_cons o es (log : list (op payload * list (effect payload))) :
  effects ((o, es) :: log) = es ++ effects log.
Proof. reflexivity. Qed.

Lemma effects_app (l1 l2 : list (op payload * list (effect payload))) :
  effects (l1 ++ l2) = effects l1 ++ effects l2.
Proof. unfold effects. by rewrite fmap_app, concat_app. Qed.

(** ** Logging mode *)

Lemma visible_trace c d m : visible (trace c d m) = [].
Proof. unfold trace. by destruct (logging c). Qed.

Lemma visible_app es1 es2 : visible (es1 ++ es2) = visible es1 ++ visible es2.
Proof. apply List.filter_app. Qed.

Lemma same_but_logging_sym c1 c2 :
  same_but_logging c1 c2 → same_but_logging c2 c1.
Proof. intros (? & ? & ? & ? & ?). by repeat split. Qed.

Lemma same_but_logging_trans c1 c2 c3 :
  same_but_logging c1 c2 → same_but_logging c2 c3 → same_but_logging c1 c3.
Proof.
  intros (? & ? & ? & ? & ?) (? & ? & ? & ? & ?).
  repeat split; congruence.
Qed.

Lemma same_but_logging_toggle c1 c2 b :
  same_but_logging c1 c2 → same_but_logging (setLoggingMode c1 b) c2.
Proof. intros (? & ? & ? & ? & ?). by repeat split. Qed.

(** One step that is not a toggle shows the same and leaves the same,
    whatever the logging modes. *)
Lemma step_same_but_logging c1 c2 o :
  same_but_logging c1 c2 → is_toggle o = false →
  visible (step c1 o).2 = visible (step c2 o).2 ∧
  same_but_logging (step c1 o).1 (step c2 o).1.
Proof.
  destruct c1 as [l1 n1 p1 pe1 r1 b1], c2 as [l2 n2 p2 pe2 r2 b2].
  intros (Hl & Hn & Hp & Hpe & Hr) Ho. simpl in *. subst l2 n2 p2 pe2 r2.
  destruct o as [now method ps | method h | b | m |]; try discriminate.
  - unfold step, send. simpl. destruct l1; simpl.
    + rewrite !visible_app, !visible_trace. by repeat split.
    + by repeat split.
  - by repeat split.
  - unfold step, receive. simpl. destruct l1; [|by repeat split].
    destruct (msg_id m) as [id|].
    + destruct (pe1 !! id) as [pc|]; simpl.
      * rewrite !visible_app, !visible_trace. by repeat split.
      * rewrite !visible_trace. by repeat split.
    + destruct (msg_method m) as [method|]; simpl.
      * rewrite !visible_app, !visible_trace. by repeat split.
      * rewrite !visible_trace. by repeat split.
  - unfold step, close. simpl. destruct l1; by repeat split.
Qed.

Lemma observable_cons o es (log : list (op payload * list (effect payload))) :
  observable ((o, es) :: log) =
    if is_toggle o then observable log else (o, visible es) :: observable log.
Proof. unfold observable. simpl. by destruct (is_toggle o). Qed.

Lemma without_toggles_cons o ops :
  without_toggles (o :: ops) =
    if is_toggle o then without_toggles ops else o :: without_toggles ops.
Proof. unfold without_toggles. simpl. by destruct (is_toggle o). Qed.

Lemma toggles_drop_out ops : ∀ c c',
  same_but_logging c c' →
  observable (history c ops) = observable (history c' (without_toggles ops)) ∧
  same_but_logging (final c ops) (final c' (without_toggles ops)).
Proof.
  induction ops as [|o ops IH]; intros c c' Hs; [done|].
  rewrite history_cons, final_cons, observable_cons, without_toggles_cons.
  destruct (is_toggle o) eqn:Ho.
  - destruct o; try discriminate. simpl.
    apply IH. by apply same_but_logging_toggle.
  - rewrite history_cons, final_cons, observable_cons, Ho.
    destruct (step_same_but_logging c c' o Hs Ho) as [Hv Hs'].
    destruct (IH _ _ Hs') as [IH1 IH2]. split; [|done].
    by rewrite Hv, IH1.
Qed.

(** C5. Two runs that differ only in their calls to [setLoggingMode],
    from Connections that differ at most in their logging mode, show the
    same thing at every other step: the same settlements with the same
    values, the same handler calls in the same order, the same writes;
    and they end in states that differ at most in the logging mode. *)
Theorem logging_mode_does_not_interfere c1 c2 ops1 ops2 :
  same_but_logging c1 c2 →
  without_toggles ops1 = without_toggles ops2 →
  observable (history c1 ops1) = observable (history c2 ops2) ∧
  same_but_logging (final c1 ops1) (final c2 ops2).
Proof.
  intros Hs Hops.
  destruct (toggles_drop_out ops1 c1 c1) as [H1 F1]; [by repeat split|].
  destruct (toggles_drop_out ops2 c2 c1) as [H2 F2];
    [by apply same_but_logging_sym|].
  rewrite H1, H2, Hops. split; [done|].
  rewrite Hops in F1.
  eapply same_but_logging_trans; [exact F1|].
  by apply same_but_logging_sym.
Qed.

(** ** The handler registry *)

Lemma registry_on c method h method' :
  default [] (registry (on c method h) !! method') =
  default [] (registry c !! method') ++
    (if bool_decide (method = method') then [h] else []).
Proof.
  unfold on. simpl. case_bool_decide as Hm.
  - subst method'. by rewrite lookup_insert_eq.
  - rewrite lookup_insert_ne by done. by rewrite app_nil_r.
Qed.

Lemma registry_step c o method :
  default [] (registry (step c o).1 !! method) =
  default [] (registry c !! method) ++ registered method [o].
Proof.
  destruct o as [now method' ps | method' h | b | m |].
  - simpl. unfold send.
    destruct (lifecycle_state c); simpl; by rewrite app_nil_r.
  - unfold step. cbn [fst]. rewrite registry_on. unfold registered. simpl.
    by case_bool_decide.
  - simpl. by rewrite app_nil_r.
  - simpl. unfold receive.
    destruct (lifecycle_state c); [|by rewrite app_nil_r].
    destruct (msg_id m) as [id|].
    + destruct (pending c !! id); simpl; by rewrite app_nil_r.
    + destruct (msg_method m); simpl; by rewrite app_nil_r.
  - simpl. unfold close.
    destruct (lifecycle_state c); simpl; by rewrite app_nil_r.
Qed.

Lemma registered_cons method o ops :
  registered method (o :: ops) = registered method [o] ++ registered method ops.
Proof. unfold registered. simpl. by destruct o; try case_bool_decide. Qed.

Lemma registry_final ops : ∀ c method,
  default [] (registry (final c ops) !! method) =
  default [] (registry c !! method) ++ registered method ops.
Proof.
  induction ops as [|o ops IH]; intros c method.
  - by rewrite app_nil_r.
  - rewrite final_cons, IH, registry_step, (registered_cons method o ops).
    by rewrite <- app_assoc.
Qed.

Lemma invocations_trace c d m : invocations (trace c d m) = [].
Proof. unfold trace. by destruct (logging c). Qed.

Lemma invocations_invoke (hs : list handler) (ps : option payload) :
  invocations ((λ h, Invoke h ps) <$> hs) = (λ h, (h, ps)) <$> hs.
Proof.
  induction hs as [|h hs IH]; [done|].
  unfold invocations in *. csimpl. by rewrite IH.
Qed.

(** C3. A notification for [method], delivered to an [Open] Connection
    after any run, calls the handlers registered for [method]: those the
    Connection started with, then one call per [on(method, h)] of the run,
    in the order of registration, each with the notification's payload,
    and nothing else. A handler registered twice is called twice. *)
Theorem handlers_fire_in_registration_order c ops m method :
  lifecycle_state (final c ops) = Open →
  msg_id m = None →
  msg_method m = Some method →
  invocations (receive (final c ops) m).2 =
    (λ h, (h, msg_params m)) <$>
      (default [] (registry c !! method) ++ registered method ops).
Proof.
  intros Hopen Hid Hm. unfold receive. rewrite Hopen, Hid, Hm. simpl.
  unfold invocations. rewrite omap_app.
  fold (invocations (trace (final c ops) Inbound m)).
  rewrite invocations_trace. simpl.
  fold (invocations ((λ h, Invoke h (msg_params m)) <$>
                       default [] (registry (final c ops) !! method))).
  by rewrite invocations_invoke, registry_final.
Qed.

(** ** Correlation ids *)

Lemma assigned_ids_app es1 es2 :
  assigned_ids (es1 ++ es2) = assigned_ids es1 ++ assigned_ids es2.
Proof. apply omap_app. Qed.

Lemma assigned_ids_trace c d m : assigned_ids (trace c d m) = [].
Proof. unfold trace. by destruct (logging c). Qed.

Lemma assigned_ids_settlement p m : assigned_ids [settlement p m] = [].
Proof. unfold settlement. by destruct (msg_error m). Qed.

Lemma assigned_ids_fmap {A} (f : A → effect payload) (l : list A) :
  (∀ x, written_id (f x) = None) → assigned_ids (f <$> l) = [].
Proof.
  intros Hf. unfold assigned_ids. induction l as [|x l IH]; [done|].
  simpl. by rewrite Hf.
Qed.

(** A step hands out no id, or exactly the next one. *)
Lemma step_ids c o :
  (assigned_ids (step c o).2 = [] ∧ next_id (step c o).1 = next_id c) ∨
  (assigned_ids (step c o).2 = [next_id c] ∧
   next_id (step c o).1 = next_id c + 1).
Proof.
  destruct o as [now method ps | method h | b | m |]; simpl.
  - unfold send. destruct (lifecycle_state c); simpl.
    + right. by rewrite assigned_ids_app, assigned_ids_trace.
    + by left.
  - by left.
  - by left.
  - left. unfold receive. destruct (lifecycle_state c); [|done].
    destruct (msg_id m) as [id|].
    + destruct (pending c !! id); simpl.
      * by rewrite assigned_ids_app, assigned_ids_trace,
          assigned_ids_settlement.
      * by rewrite assigned_ids_trace.
    + destruct (msg_method m); simpl.
      * rewrite assigned_ids_app, assigned_ids_trace.
        by rewrite assigned_ids_fmap.
      * by rewrite assigned_ids_trace.
  - left. unfold close. destruct (lifecycle_state c); [|done]. simpl.
    by rewrite assigned_ids_fmap.
Qed.

Lemma run_ids ops : ∀ c,
  StronglySorted Z.lt (assigned_ids (effects (history c ops))) ∧
  Forall (λ i, next_id c ≤ i) (assigned_ids (effects (history c ops))).
Proof.
  induction ops as [|o ops IH]; intros c.
  - split; constructor.
  - rewrite history_cons, effects_cons, assigned_ids_app.
    destruct (IH (step c o).1) as [Hs Hb].
    destruct (step_ids c o) as [[-> Hn] | [-> Hn]]; rewrite Hn in Hb; simpl.
    + done.
    + split.
      * constructor; [done|]. eapply Forall_impl; [exact Hb|].
        simpl. intros. lia.
      * constructor; [lia|]. eapply Forall_impl; [exact Hb|].
        simpl. intros. lia.
Qed.

(** ** The pending table stays well formed *)

Lemma new_wf (first_id : Z) : wf (new first_id).
Proof. split; intros *; simpl; by rewrite ?lookup_empty. Qed.

Lemma step_wf c o : wf c → wf (step c o).1.
Proof.
  intros [Hin Hinj].
  destruct o as [now method ps | method h | b | m |]; simpl; try done.
  - unfold send. destruct (lifecycle_state c); simpl.
    + split; simpl.
      * intros id pc. rewrite lookup_insert. case_decide as Hid.
        -- intros [= <-]. simpl. subst id. lia.
        -- intros Hpc. destruct (Hin _ _ Hpc) as (? & ? & ?). lia.
      * intros id1 id2 pc1 pc2. rewrite !lookup_insert.
        repeat case_decide; subst.
        -- done.
        -- intros [= <-] Hpc2. simpl. destruct (Hin _ _ Hpc2) as (? & ? & ?).
           lia.
        -- intros Hpc1 [= <-]. simpl. destruct (Hin _ _ Hpc1) as (? & ? & ?).
           lia.
        -- apply Hinj.
    + split; simpl; [|done].
      intros id pc Hpc. destruct (Hin _ _ Hpc) as (? & ? & ?). lia.
  - unfold receive. destruct (lifecycle_state c); [|done].
    destruct (msg_id m) as [id|]; [|by destruct (msg_method m)].
    destruct (pending c !! id) eqn:Hid; [|done]. split; simpl.
    + intros id' pc'. rewrite lookup_delete. case_decide; [done|]. apply Hin.
    + intros id1 id2 pc1 pc2. rewrite !lookup_delete.
      repeat case_decide; try done. apply Hinj.
  - unfold close. destruct (lifecycle_state c); [|done].
    split; intros *; simpl; by rewrite ?lookup_empty.
Qed.

Lemma final_wf ops : ∀ c, wf c → wf (final c ops).
Proof.
  induction ops as [|o ops IH]; intros c Hc; [done|].
  rewrite final_cons. by apply IH, step_wf.
Qed.

(** C2. Over the lifetime of a Connection, whatever is done to it, the
    correlation ids written to the Transport are strictly increasing; and
    at the moment a step hands out an id, no Pending Call sits under that
    id in the table. *)
Theorem correlation_ids_strictly_increase (first_id : Z) ops :
  StronglySorted Z.lt (assigned_ids (effects (history (new first_id) ops))) ∧
  (∀ ops1 o rest (i : Z),
     ops = ops1 ++ o :: rest →
     i ∈ assigned_ids (step (final (new first_id) ops1) o).2 →
     pending (final (new first_id) ops1) !! i = None).
Proof.
  split; [apply run_ids|].
  intros ops1 o rest i _ Hi.
  pose proof (final_wf ops1 _ (new_wf first_id)) as [Hin _].
  destruct (step_ids (final (new first_id) ops1) o) as [[E _] | [E _]];
    rewrite E in Hi.
  - by apply elem_of_nil in Hi.
  - apply list_elem_of_singleton in Hi. subst i.
    destruct (pending (final (new first_id) ops1) !! _) as [pc|] eqn:Hpc;
      [|done].
    destruct (Hin _ _ Hpc) as (? & ? & ?). lia.
Qed.

(** ** Settlements *)

Lemma elem_of_concat {A} (x : A) (ls : list (list A)) :
  x ∈ concat ls ↔ ∃ l, x ∈ l ∧ l ∈ ls.
Proof.
  rewrite list_elem_of_In, in_concat. split.
  - intros (l & Hl & Hx). exists l. by rewrite !list_elem_of_In.
  - intros (l & Hx & Hl). exists l. by rewrite <- !list_elem_of_In.
Qed.

Lemma settlements_of_app p es1 es2 :
  settlements_of p (es1 ++ es2) = settlements_of p es1 ++ settlements_of p es2.
Proof. apply List.filter_app. Qed.

Lemma settlements_of_trace p c d m : settlements_of p (trace c d m) = [].
Proof. unfold trace. by destruct (logging c). Qed.

Lemma settles_settlement p q m : settles p (settlement q m) = bool_decide (q = p).
Proof. unfold settlement. by destruct (msg_error m). Qed.

Lemma settlements_of_none {A} p (f : A → effect payload) (l : list A) :
  (∀ x, x ∈ l → settles p (f x) = false) → settlements_of p (f <$> l) = [].
Proof.
  unfold settlements_of. induction l as [|x l IH]; intros Hf; [done|].
  simpl. rewrite Hf by left. apply IH. intros y Hy. apply Hf. by right.
Qed.

(** A message that is not the response to [id] settles nothing for the
    call pending under [id] and leaves it pending. *)
Lemma receive_other c m id pc :
  wf c → pending c !! id = Some pc → msg_id m ≠ Some id →
  settlements_of (pc_promise pc) (receive c m).2 = [] ∧
  pending (receive c m).1 !! id = Some pc ∧
  lifecycle_state (receive c m).1 = lifecycle_state c.
Proof.
  intros [_ Hinj] Hpc Hm. unfold receive.
  destruct (lifecycle_state c) eqn:Hl; [|done].
  destruct (msg_id m) as [id'|].
  - destruct (pending c !! id') as [pc'|] eqn:Hpc'; simpl.
    + rewrite settlements_of_app, settlements_of_trace. simpl.
      rewrite settles_settlement.
      rewrite lookup_delete_ne by congruence.
      case_bool_decide as Hp; [|done].
      exfalso. apply Hm. f_equal. by eapply Hinj.
    + by rewrite settlements_of_trace.
  - destruct (msg_method m); simpl.
    + rewrite settlements_of_app, settlements_of_trace.
      by rewrite settlements_of_none.
    + by rewrite settlements_of_trace.
Qed.

Lemma deliver_not_pending (resps : list (message payload)) : ∀ c p,
  (∀ id pc, pending c !! id = Some pc → pc_promise pc ≠ p) →
  settlements_of p (effects (history c (Deliver <$> resps))) = [].
Proof.
  induction resps as [|m resps IH]; intros c p Hp; [done|].
  rewrite fmap_cons, history_cons, effects_cons, settlements_of_app.
  simpl step. unfold receive.
  destruct (lifecycle_state c); [|by apply IH].
  destruct (msg_id m) as [id|].
  - destruct (pending c !! id) as [pc|] eqn:Hpc; simpl.
    + rewrite settlements_of_app, settlements_of_trace. simpl.
      rewrite settles_settlement.
      rewrite bool_decide_eq_false_2 by eauto.
      apply IH. simpl. intros id' pc'. rewrite lookup_delete.
      case_decide; [done | apply Hp].
    + rewrite settlements_of_trace. by apply IH.
  - destruct (msg_method m); simpl.
    + rewrite settlements_of_app, settlements_of_trace.
      rewrite settlements_of_none by done. by apply IH.
    + rewrite settlements_of_trace. by apply IH.
Qed.

(** Among inbound messages whose ids are pairwise different, the one
    carrying [id] settles the call pending under [id], and nothing else
    does. *)
Lemma deliver_unique (inbound : list (message payload)) : ∀ c id pc m,
  wf c → lifecycle_state c = Open → pending c !! id = Some pc →
  NoDup (omap msg_id inbound) → m ∈ inbound → msg_id m = Some id →
  settlements_of (pc_promise pc) (effects (history c (Deliver <$> inbound))) =
    [settlement (pc_promise pc) m].
Proof.
  induction inbound as [|m0 inbound IH];
    intros c id pc m Hwf Hopen Hpc Hnd Hin Hm.
  - by apply elem_of_nil in Hin.
  - rewrite fmap_cons, history_cons, effects_cons, settlements_of_app.
    simpl step.
    destruct (decide (msg_id m0 = Some id)) as [E|E].
    + assert (m = m0) as ->.
      { apply elem_of_cons in Hin as [->|Hin]; [done|].
        exfalso. cbn [omap list_omap] in Hnd. rewrite E in Hnd.
        apply NoDup_cons in Hnd as [Hm0 _]. apply Hm0.
        apply list_elem_of_omap. by exists m. }
      unfold receive. rewrite Hopen, E, Hpc. simpl.
      rewrite settlements_of_app, settlements_of_trace. simpl.
      rewrite settles_settlement, bool_decide_eq_true_2 by done.
      rewrite deliver_not_pending; [done|].
      simpl. intros id' pc'. rewrite lookup_delete.
      case_decide as Hid; [done|]. intros Hpc' Hp.
      destruct Hwf as [_ Hinj]. apply Hid. symmetry. by eapply Hinj.
    + destruct (receive_other c m0 id pc Hwf Hpc E) as (-> & Hpc' & Hl).
      simpl. apply (IH _ id); try done.
      * by apply (step_wf c (Deliver m0)).
      * congruence.
      * cbn [omap list_omap] in Hnd.
        destruct (msg_id m0); [by apply NoDup_cons in Hnd as [_ ?] | done].
      * apply elem_of_cons in Hin as [->|Hin]; [congruence | done].
Qed.

(** What a batch of [send] calls on an [Open] Connection leaves behind. *)
Lemma send_all_spec cmds : ∀ c,
  wf c → lifecycle_state c = Open →
  ∃ c1 issued es1,
    send_all c cmds = (c1, issued, es1) ∧
    wf c1 ∧ lifecycle_state c1 = Open ∧
    next_id c ≤ next_id c1 ∧ (next_promise c ≤ next_promise c1)%nat ∧
    (∀ id, id < next_id c → pending c1 !! id = pending c !! id) ∧
    length issued = length cmds ∧
    (∀ p ids, (p, ids) ∈ issued →
       ∃ id pc, ids = [id] ∧ next_id c ≤ id ∧ (next_promise c ≤ p)%nat ∧
                pending c1 !! id = Some pc ∧ pc_promise pc = p) ∧
    NoDup (concat issued.*2) ∧ NoDup issued.*1 ∧
    (∀ p, settlements_of p es1 = []).
Proof.
  induction cmds as [|[[now method] ps] cmds IH]; intros c Hwf Hopen.
  - exists c, [], []. split_and!; try done; try constructor.
    intros p ids Hin. by apply elem_of_nil in Hin.
  - pose proof (step_wf c (Send now method ps) Hwf) as Hwf'.
    simpl in Hwf'. simpl send_all.
    unfold send in *. rewrite Hopen in *. simpl in Hwf'.
    set (c' := {| lifecycle_state := Open; next_id := next_id c + 1;
                  next_promise := S (next_promise c);
                  pending := _; registry := registry c;
                  logging := logging c |}) in *.
    destruct (IH c' Hwf' eq_refl)
      as (c1 & issued & es1 & -> & Hwf1 & Hopen1 & Hn & Hp & Hold & Hlen &
          Hiss & Hnd & Hndp & Hes).
    subst c'. simpl in Hn, Hp, Hold, Hiss.
    eexists _, _, _. split; [reflexivity|].
    rewrite assigned_ids_app, assigned_ids_trace. simpl.
    split_and!; try done; try lia.
    + intros id Hid. rewrite Hold by lia.
      apply lookup_insert_ne. lia.
    + intros p ids Hin. apply elem_of_cons in Hin as [[= -> ->]|Hin].
      * exists (next_id c), (PendingCall (next_id c) (next_promise c) now).
        split_and!; try done; try lia.
        rewrite Hold by lia. apply lookup_insert_eq.
      * destruct (Hiss _ _ Hin) as (id & pc & -> & ? & ? & ? & ?).
        exists id, pc. split_and!; try done; lia.
    + apply NoDup_cons. split; [|done].
      intros Hin. apply elem_of_concat in Hin as (ids & Hid & Hids).
      apply list_elem_of_fmap in Hids as ([p ids'] & -> & Hin).
      destruct (Hiss _ _ Hin) as (id & pc & E & ? & _). simpl in Hid.
      rewrite E in Hid. apply list_elem_of_singleton in Hid. lia.
    + apply NoDup_cons. split; [|done].
      intros Hin. apply list_elem_of_fmap in Hin as ([p ids'] & E & Hin).
      simpl in E. subst p.
      destruct (Hiss _ _ Hin) as (id & pc & _ & _ & ? & _). lia.
    + intros p. rewrite !settlements_of_app, settlements_of_trace, Hes.
      done.
Qed.

(** C1. Issue any batch of [send] calls on an [Open] Connection, then let
    the Transport deliver their responses in any order, one per assigned
    id, with any notifications in between. The calls got pairwise
    different promises, each wrote exactly one id, and for each call the
    whole run holds exactly one settlement of its promise: the one made
    from the response whose id is the id that call wrote (resolve with its
    [result], or reject with its [error]). *)
Theorem responses_settle_their_own_call
    c (cmds : list (N * jsstring * option payload))
    (inbound : list (message payload)) :
  wf c → lifecycle_state c = Open →
  omap msg_id inbound ≡ₚ concat (send_all c cmds).1.2.*2 →
  length (send_all c cmds).1.2 = length cmds ∧
  NoDup (send_all c cmds).1.2.*1 ∧
  ∀ p ids, (p, ids) ∈ (send_all c cmds).1.2 →
    ∃ id m,
      ids = [id] ∧ m ∈ inbound ∧ msg_id m = Some id ∧
      settlements_of p
        ((send_all c cmds).2 ++
         effects (history (send_all c cmds).1.1 (Deliver <$> inbound))) =
        [settlement p m].
Proof.
  intros Hwf Hopen.
  destruct (send_all_spec cmds c Hwf Hopen)
    as (c1 & issued & es1 & -> & Hwf1 & Hopen1 & _ & _ & _ & Hlen &
        Hiss & Hnd & Hndp & Hes).
  simpl. intros Hperm. split_and!; try done.
  intros p ids Hin.
  destruct (Hiss _ _ Hin) as (id & pc & -> & _ & _ & Hpc & <-).
  assert (id ∈ omap msg_id inbound) as Hid.
  { rewrite Hperm. apply elem_of_concat. exists [id]. split; [by left|].
    by apply (list_elem_of_fmap_2 snd _ (pc_promise pc, [id])). }
  apply list_elem_of_omap in Hid as (m & Hmin & Hm).
  exists id, m. split_and!; try done.
  rewrite settlements_of_app, Hes. simpl.
  apply (deliver_unique inbound c1 id pc m); try done.
  by rewrite Hperm.
Qed.

(** ** Termination *)

Lemma closed_step c o :
  lifecycle_state c = Closed →
  lifecycle_state (step c o).1 = Closed ∧
  Forall (λ e, is_resolve e = false) (step c o).2.
Proof.
  intros Hc. destruct o as [now method ps | method h | b | m |]; simpl.
  - unfold send. rewrite Hc. simpl. split; [done|]. by repeat constructor.
  - by split.
  - by split.
  - unfold receive. rewrite Hc. by split.
  - unfold close. rewrite Hc. by split.
Qed.

Lemma closed_run ops : ∀ c,
  lifecycle_state c = Closed →
  lifecycle_state (final c ops) = Closed ∧
  Forall (λ e, is_resolve e = false) (effects (history c ops)).
Proof.
  induction ops as [|o ops IH]; intros c Hc.
  - split; [done | constructor].
  - rewrite final_cons, history_cons, effects_cons.
    destruct (closed_step c o Hc) as [Hc' Hes].
    destruct (IH _ Hc') as [Hf Hrest].
    split; [done|]. by apply Forall_app.
Qed.

Lemma rejections_exactly_once (l : list (Z * pending_call)) (p : promise) :
  NoDup ((λ kv, pc_promise kv.2) <$> l) →
  p ∈ (λ kv, pc_promise kv.2) <$> l →
  settlements_of p
    ((λ kv, @Reject payload (pc_promise kv.2) ConnectionClosed) <$> l) =
    [Reject p ConnectionClosed].
Proof.
  induction l as [|kv l IH]; intros Hnd Hp.
  - by apply elem_of_nil in Hp.
  - rewrite fmap_cons in Hnd, Hp. apply NoDup_cons in Hnd as [Hkv Hnd].
    rewrite fmap_cons. unfold settlements_of. simpl.
    case_bool_decide as E.
    + subst p. f_equal. apply settlements_of_none.
      intros x Hx. simpl. apply bool_decide_eq_false_2. intros E.
      apply Hkv. rewrite <- E.
      by apply (list_elem_of_fmap_2 (λ kv, pc_promise kv.2)).
    + apply IH; [done|]. by apply elem_of_cons in Hp as [?|?].
Qed.

(** C4. When the Transport terminates on an [Open] Connection with N
    calls pending, exactly N rejections happen, one for each pending
    promise and each with the connection-closed error, and the table is
    left empty. From then on, whatever is done to the Connection, nothing
    is ever resolved, and every [send] rejects the promise it returns, at
    once, with the connection-closed error. *)
Theorem termination_rejects_pending_and_later_sends c :
  wf c → lifecycle_state c = Open →
  length (close (payload:=payload) c).2 = size (pending c) ∧
  (∀ id pc, pending c !! id = Some pc →
     settlements_of (pc_promise pc) (close (payload:=payload) c).2 =
       [Reject (pc_promise pc) ConnectionClosed]) ∧
  pending (close (payload:=payload) c).1 = ∅ ∧
  ∀ ops,
    Forall (λ e, is_resolve e = false)
      (effects (history (close (payload:=payload) c).1 ops)) ∧
    ∀ now method (ps : option payload),
      (send (final (close (payload:=payload) c).1 ops) now method ps).2 =
        [Reject
           (send (final (close (payload:=payload) c).1 ops) now method ps).1.2
           ConnectionClosed].
Proof.
  intros [_ Hinj] Hopen. unfold close. rewrite Hopen. simpl.
  split_and!.
  - by rewrite length_fmap, length_map_to_list.
  - intros id pc Hpc. apply rejections_exactly_once.
    + apply NoDup_fmap_2_strong; [|apply NoDup_map_to_list].
      intros [id1 pc1] [id2 pc2] H1%elem_of_map_to_list
        H2%elem_of_map_to_list E. simpl in E.
      pose proof (Hinj _ _ _ _ H1 H2 E). subst id2. congruence.
    + apply (list_elem_of_fmap_2 (λ kv, pc_promise kv.2) _ (id, pc)).
      by apply elem_of_map_to_list.
  - done.
  - intros ops.
    set (c' := Conn Closed _ _ _ _ _).
    destruct (closed_run ops c' eq_refl) as [Hc Hes].
    split; [done|]. intros now method ps. unfold send. by rewrite Hc.
Qed.

End Facts.

(** ** The Connection on concrete runs *)
Import Samples.

Lemma responses_settle_their_own_call_witness :
  ∃ m,
    m ∈ two_responses ∧ msg_id m = Some 7 ∧
    settlements_of 0
      ((send_all (new 7) two_commands).2 ++
       effects (history (send_all (new 7) two_commands).1.1
                  (Deliver <$> two_responses))) =
      [Reject 0%nat (WireError "net::ERR")].
Proof.
  assert (omap msg_id two_responses ≡ₚ
          concat (send_all (new 7) two_commands).1.2.*2) as Hperm
    by apply perm_swap.
  destruct (responses_settle_their_own_call (new 7) two_commands
              two_responses (new_wf 7) eq_refl Hperm) as (_ & _ & Hall).
  destruct (Hall 0%nat [7]) as (id & m & E & Hin & Hid & Hs); [by left|].
  injection E as <-. exists m. split_and!; [done..|].
  rewrite Hs.
  apply elem_of_cons in Hin as [-> | Hin]; [discriminate Hid|].
  apply elem_of_cons in Hin as [-> | Hin]; [discriminate Hid|].
  apply list_elem_of_singleton in Hin. by subst m.
Defined.

Lemma correlation_ids_strictly_increase_witness :
  StronglySorted Z.lt (assigned_ids (effects (history (new 7) busy_run))) ∧
  pending (final (new 7) (take 3 busy_run)) !! 9 = None.
Proof.
  destruct (correlation_ids_strictly_increase 7 busy_run) as [Hs Hfree].
  split; [exact Hs|].
  apply (Hfree (take 3 busy_run) (Send 9 (lit "Page.reload") None) [] 9).
  - reflexivity.
  - by left.
Defined.

Lemma handlers_fire_in_registration_order_witness :
  invocations
    (receive (final (new 1) registrations)
       (notification "Page.loadEventFired" "t=1")).2 =
    [(1%nat, Some "t=1"); (2%nat, Some "t=1"); (1%nat, Some "t=1")].
Proof.
  exact (handlers_fire_in_registration_order (new 1) registrations
           (notification "Page.loadEventFired" "t=1")
           (lit "Page.loadEventFired") eq_refl eq_refl eq_refl).
Defined.

Lemma termination_rejects_pending_and_later_sends_witness :
  let c := (send_all (new 7) two_commands).1.1 in
  length (close (payload:=string) c).2 = 2%nat ∧
  settlements_of 1 (close (payload:=string) c).2 =
    [Reject 1%nat ConnectionClosed] ∧
  (send (final (close (payload:=string) c).1 busy_run) 0
     (lit "Page.reload") (None : option string)).2 =
    [Reject 5%nat ConnectionClosed].
Proof.
  intros c.
  assert (wf c) as Hwf.
  { destruct (send_all_spec two_commands (new 7) (new_wf 7) eq_refl)
      as (c1 & issued & es1 & E & Hwf & _).
    unfold c. by rewrite E. }
  destruct (termination_rejects_pending_and_later_sends
              (payload:=string) c Hwf eq_refl)
    as (Hlen & Hrej & _ & Hafter).
  split_and!.
  - exact Hlen.
  - exact (Hrej 8 (PendingCall 8 1 5) eq_refl).
  - exact (proj2 (Hafter busy_run) 0%N (lit "Page.reload") None).
Defined.

Lemma logging_mode_does_not_interfere_witness :
  observable (history (new 7) quiet_run) =
  observable (history (new 7) chatty_run).
Proof.
  apply (logging_mode_does_not_interfere (new 7) (new 7) quiet_run chatty_run).
  - by repeat split.
  - reflexivity.
Defined.

End ConnectionFacts.

(** * The rest of the App: edges, invariants, compositions *)
Module ShellFacts.
Import JS App Shell.

#[local] Arguments lit : simpl never.

(** Unfold the callbacks and the two monads down to property reads. *)
Ltac unfold_callbacks :=
  unfold dispatch, handle, fire, componentDidUpdate, on_Page_loadEventFired,
    on_Page_frameNavigated, on_Page_screencastFrame, on_Page_windowOpen,
    on_extension_appConfiguration, loadEventFired_update,
    loadEventFired_timeout, react, onViewportChanged_then, onViewportChanged,
    onToolbarActionInvoked, requestNavigationHistory_resume,
    requestNavigationHistory, startCasting, stopCasting, get_elem;
  unfold in_app, sbind, setTimeout, connection_setLoggingMode, connection_on,
    bind, lift, ret, throw, this_state, window_devicePixelRatio, setState,
    connection_send;
  cbv beta iota.

(** Split on the next thing the code looks at. *)
Ltac case_on_next :=
  match goal with
  | |- context [match get ?v ?k with _ => _ end] =>
      destruct (get v k) as [?|[]] eqn:?
  | |- context [match to_string ?v with _ => _ end] =>
      destruct (to_string v) as [?|[]] eqn:?
  | |- context [match to_number ?v with _ => _ end] =>
      destruct (to_number v) as [?|[]] eqn:?
  | |- context [if negb (truthy ?v) then _ else _] =>
      destruct (truthy v) eqn:?
  | |- context [if truthy ?v then _ else _] =>
      destruct (truthy v) eqn:?
  | |- context [if strict_eq_str ?a ?s then _ else _] =>
      destruct (strict_eq_str a s) eqn:?
  | |- context [match match_http ?s with _ => _ end] =>
      destruct (match_http s) eqn:?
  end;
  cbn [negb]; cbv beta iota.

Section Facts.
Context `{JSNumber}.

(** ** Property reads *)

Lemma get_nullish (v : value) (k : jsstring) :
  is_nullish v = true → get v k = Throw TypeError.
Proof. by destruct v. Qed.

Lemma get_not_nullish (v : value) (k : jsstring) :
  is_nullish v = false → ∃ x, get v k = Normal x.
Proof.
  destruct v; try discriminate; intros _; simpl; eauto;
    destruct (array_index k); eauto; case_bool_decide; eauto.
Qed.

Lemma get_Normal_not_nullish (v x : value) (k : jsstring) :
  get v k = Normal x → is_nullish v = false.
Proof. by destruct v. Qed.

Lemma get_throw_again (v : value) (e : exn) (k k' : jsstring) :
  get v k = Throw e → get v k' = Throw TypeError.
Proof. by destruct v; simpl; repeat case_match. Qed.

Lemma get_again (v x : value) (k k' : jsstring) :
  get v k = Normal x → ∃ y, get v k' = Normal y.
Proof. intros Hx. eapply get_not_nullish, get_Normal_not_nullish, Hx. Qed.

(** X1. A handler that reads its payload throws a [TypeError] on an
    [undefined] or [null] payload, before it has sent or stored anything;
    on any other payload the three handlers that read only the payload's
    own properties complete. The ['Page.loadEventFired'] handler does not
    read its payload and completes on every payload. *)
Theorem handlers_on_nullish_payloads (result : value) (w : world) (s : shell) :
  (on_Page_loadEventFired result s).1 = Normal tt ∧
  if is_nullish result then
    on_Page_frameNavigated result w = (Throw TypeError, w) ∧
    on_Page_screencastFrame result w = (Throw TypeError, w) ∧
    on_Page_windowOpen result w = (Throw TypeError, w) ∧
    on_extension_appConfiguration result w = (Throw TypeError, w)
  else
    (on_Page_screencastFrame result w).1 = Normal tt ∧
    (on_Page_windowOpen result w).1 = Normal tt ∧
    (on_extension_appConfiguration result w).1 = Normal tt.
Proof.
  split; [done|].
  destruct (is_nullish result) eqn:Hn.
  - unfold_callbacks. rewrite !(get_nullish result) by done. done.
  - destruct (get_not_nullish result (lit "sessionId") Hn) as [x1 H1].
    destruct (get_not_nullish result (lit "data") Hn) as [x2 H2].
    destruct (get_not_nullish result (lit "metadata") Hn) as [x3 H3].
    destruct (get_not_nullish result (lit "url") Hn) as [x4 H4].
    destruct (get_not_nullish result (lit "settings") Hn) as [x5 H5].
    unfold_callbacks. rewrite H1, H2, H3, H4, H5. cbv beta iota.
    split_and!; try done.
    destruct (truthy x5) eqn:Ht; cbn [negb]; cbv beta iota; [|done].
    assert (is_nullish x5 = false) as Hx5 by (by destruct x5).
    destruct (get_not_nullish x5 (lit "startUrl") Hx5) as [y1 Hy1].
    destruct (get_not_nullish x5 (lit "verbose") Hx5) as [y2 Hy2].
    rewrite Hy1, Hy2. cbv beta iota.
    by destruct (truthy y1).
Qed.

(** X2. A ['Page.frameNavigated'] payload that has no [frame] (the
    property is absent, [undefined] or [null]) makes the handler throw a
    [TypeError]; nothing is sent and the state stays as it was. *)
Theorem frameNavigated_without_frame (result frame_ : value) (w : world) :
  get result (lit "frame") = Normal frame_ →
  is_nullish frame_ = true →
  on_Page_frameNavigated result w = (Throw TypeError, w).
Proof.
  intros Hf Hn. unfold_callbacks. rewrite Hf. cbv beta iota.
  by rewrite (get_nullish frame_).
Qed.

(** X3. A viewport ['size'] change whose [data] is [undefined] or [null]
    has already sent [Page.stopScreencast] when reading [data.height]
    throws: the screencast is stopped, no metrics are sent, nothing is
    attached that would start it again, and the state is unchanged. *)
Theorem size_change_without_data (data : value) (w : world) :
  is_nullish data = true →
  onViewportChanged (VStr (lit "size")) data w =
    (Throw TypeError,
     {| state := state w;
        devicePixelRatio := devicePixelRatio w;
        sent := sent w ++
          [Call (VStr (lit "Page.stopScreencast")) VUndefined Discarded] |}).
Proof.
  intros Hn. unfold onViewportChanged. AppFacts.switch_on_action.
  unfold_callbacks. by rewrite (get_nullish data).
Qed.

Lemma has_case_false (cases : list jsstring) (action : value) (s : jsstring) :
  has_case cases action = false → s ∈ cases →
  strict_eq_str action s = false.
Proof.
  destruct action; try done. simpl. intros Hc Hs.
  apply bool_decide_eq_false in Hc. apply bool_decide_eq_false.
  congruence.
Qed.

(** X4. An [action] for which the [switch] has no case, a string other
    than the listed ones or no string at all, is ignored: both
    [onToolbarActionInvoked] and [onViewportChanged] complete without
    sending, storing or reading [data], whatever [data] is. *)
Theorem unknown_actions_are_ignored (action data : value) (w : world) :
  (has_case toolbar_cases action = false →
   onToolbarActionInvoked action data w = (Normal tt, w)) ∧
  (has_case viewport_cases action = false →
   onViewportChanged action data w = (Normal tt, w)).
Proof.
  split; intros Hc.
  - unfold onToolbarActionInvoked.
    rewrite !(has_case_false toolbar_cases action)
      by (done || (unfold toolbar_cases; set_solver)).
    done.
  - unfold onViewportChanged.
    rewrite !(has_case_false viewport_cases action)
      by (done || (unfold viewport_cases; set_solver)).
    done.
Qed.

(** X5. A viewport ['interaction'] forwards [data.action] and
    [data.params] to [send] as they are, as one command whose promise is
    dropped, and leaves the state alone; with [data] [undefined] or [null]
    it throws before sending. *)
Theorem interaction_is_forwarded (data : value) (w : world) :
  if is_nullish data then
    onViewportChanged (VStr (lit "interaction")) data w = (Throw TypeError, w)
  else
    ∃ a p,
      get data (lit "action") = Normal a ∧
      get data (lit "params") = Normal p ∧
      onViewportChanged (VStr (lit "interaction")) data w =
        (Normal tt,
         {| state := state w;
            devicePixelRatio := devicePixelRatio w;
            sent := sent w ++ [Call a p Discarded] |}).
Proof.
  unfold onViewportChanged. AppFacts.switch_on_action.
  destruct (is_nullish data) eqn:Hn.
  - unfold_callbacks. by rewrite (get_nullish data).
  - destruct (get_not_nullish data (lit "action") Hn) as [a Ha].
    destruct (get_not_nullish data (lit "params") Hn) as [p Hp].
    exists a, p. unfold_callbacks. by rewrite Ha, Hp.
Qed.

Lemma truthy_not_nullish (v : value) : truthy v = true → is_nullish v = false.
Proof. by destruct v. Qed.

(** X6. On an ['extension.appConfiguration'] payload whose [settings] is
    absent, [undefined], [null] or any other falsy value the handler does
    nothing. With truthy [settings], it stores [startUrl] as [state.url]
    when that is truthy and ['about:blank'] otherwise, so the stored url
    is always truthy; it stores [verbose] when that is truthy and [false]
    otherwise; it keeps [frame], [viewportMetadata] and [history]; and it
    sends [Page.navigate], once and with the very url it stored, exactly
    when [startUrl] is truthy. *)
Theorem appConfiguration_applied (result settings : value) (w : world) :
  get result (lit "settings") = Normal settings →
  let r := on_extension_appConfiguration result w in
  if truthy settings then
    ∃ startUrl verbose_ : value,
      get settings (lit "startUrl") = Normal startUrl ∧
      get settings (lit "verbose") = Normal verbose_ ∧
      r.1 = Normal tt ∧
      url (state r.2) =
        (if truthy startUrl then startUrl else VStr (lit "about:blank")) ∧
      truthy (url (state r.2)) = true ∧
      verbose (state r.2) =
        (if truthy verbose_ then verbose_ else VBool false) ∧
      boolean_like (verbose (state r.2)) ∧
      frame (state r.2) = frame (state w) ∧
      viewportMetadata (state r.2) = viewportMetadata (state w) ∧
      history (state r.2) = history (state w) ∧
      devicePixelRatio r.2 = devicePixelRatio w ∧
      sent r.2 = sent w ++
        (if truthy startUrl
         then [Call (VStr (lit "Page.navigate"))
                 (VObj [(lit "url", url (state r.2))]) Discarded]
         else [])
  else r = (Normal tt, w).
Proof.
  intros Hs r. subst r. unfold_callbacks. rewrite Hs. cbv beta iota.
  destruct (truthy settings) eqn:Ht; cbn [negb]; cbv beta iota; [|done].
  pose proof (truthy_not_nullish settings Ht) as Hn.
  destruct (get_not_nullish settings (lit "startUrl") Hn) as [startUrl Hu].
  destruct (get_not_nullish settings (lit "verbose") Hn) as [verbose_ Hv].
  exists startUrl, verbose_. rewrite Hu, Hv. cbv beta iota.
  destruct (truthy startUrl) eqn:Hsu; cbn.
  - split_and!; try done.
    unfold boolean_like. destruct (truthy verbose_) eqn:?; eauto.
  - rewrite app_nil_r. split_and!; try done.
    unfold boolean_like. destruct (truthy verbose_) eqn:?; eauto.
Qed.

(** ** The rest of [requestNavigationHistory] *)

(** X7. Whatever [Page.getNavigationHistory] resolved to, the rest of
    [requestNavigationHistory] ends in one of three ways. The world is
    exactly as before (the payload was falsy, or a [TypeError] came
    before anything was stored). Or a string was stored as [state.url]
    and [state.history] replaced, every other field kept, and then
    building the title text threw a [TypeError], with nothing sent. Or,
    after the same update, exactly one command was sent,
    [extension.updateTitle] with a string title, and the function
    completed. *)
Theorem navigation_history_outcomes (history_ : value) (w : world) :
  let r := requestNavigationHistory_resume history_ w in
  r.2 = w ∨
  ∃ (u : jsstring) (h : History),
    let stored :=
      {| frame := frame (state w);
         url := VStr u;
         verbose := verbose (state w);
         viewportMetadata := viewportMetadata (state w);
         history := h |} in
    r = (Throw TypeError,
         {| state := stored;
            devicePixelRatio := devicePixelRatio w;
            sent := sent w |}) ∨
    ∃ title : jsstring,
      r = (Normal tt,
           {| state := stored;
              devicePixelRatio := devicePixelRatio w;
              sent := sent w ++
                [Call (VStr (lit "extension.updateTitle"))
                   (VObj [(lit "title", VStr title)]) Discarded] |}).
Proof.
  intros r. subst r. unfold_callbacks.
  destruct (truthy history_) eqn:Ht; cbn [negb]; cbv beta iota; [|by left].
  destruct (get history_ (lit "currentIndex")) as [idx|[]] eqn:Hi;
    cbv beta iota; [|by left].
  destruct (get history_ (lit "entries")) as [entries|[]] eqn:He;
    cbv beta iota; [|by left].
  destruct (to_string idx) as [k|[]] eqn:Hk; cbv beta iota; [|by left].
  destruct (get entries k) as [entry|[]] eqn:Hc;
    cbv beta iota; [|by left].
  destruct (get entry (lit "url")) as [url0|[]] eqn:Hu;
    cbv beta iota; [|by left].
  destruct (get_again entries entry k (lit "length") Hc) as [len Hl].
  destruct (get_again entry url0 (lit "url") (lit "title") Hu)
    as [title Hti].
  destruct url0 as [| | | |u| |]; cbv beta iota; try by left.
  rewrite Hl. cbv beta iota.
  destruct (to_number len) as [n|[]] eqn:Hn; cbv beta iota; [|by left].
  rewrite Hti. cbv beta iota. right.
  destruct (to_string (if truthy title then title else VStr u))
    as [shown|[]] eqn:Hs; cbv beta iota;
    destruct (match_http u) as [g|]; eauto.
Qed.

(** The second way is taken on a title that does not convert to a
    string: the update is made, then the [TypeError] comes, and no title
    is sent. *)
Lemma navigation_history_title_not_convertible
    (history_ idx entries entry title len : value) (u : jsstring)
    (n : number) (w : world) :
  truthy history_ = true →
  get history_ (lit "currentIndex") = Normal idx →
  get history_ (lit "entries") = Normal entries →
  get_elem entries idx = Normal entry →
  get entry (lit "url") = Normal (VStr u) →
  get entry (lit "title") = Normal title →
  get entries (lit "length") = Normal len →
  to_number len = Normal n →
  to_string (if truthy title then title else VStr u) = Throw TypeError →
  requestNavigationHistory_resume history_ w =
    (Throw TypeError,
     {| state :=
          {| frame := frame (state w);
             url := VStr (default u (match_http u));
             verbose := verbose (state w);
             viewportMetadata := viewportMetadata (state w);
             history :=
               {| canGoBack := strict_eq_num idx (num_of_Z 0);
                  canGoForward :=
                    strict_eq_num idx (num_sub n (num_of_Z 1)) |} |};
        devicePixelRatio := devicePixelRatio w;
        sent := sent w |}).
Proof.
  intros Ht Hi He Hc Hu Hti Hl Hn Hs.
  unfold requestNavigationHistory_resume. rewrite Ht. cbn [negb].
  unfold bind, lift, ret, throw, this_state, setState, connection_send.
  cbv beta iota.
  rewrite Hi. cbv beta iota. rewrite He. cbv beta iota.
  rewrite Hc. cbv beta iota. rewrite Hu. cbv beta iota.
  rewrite Hl. cbv beta iota. rewrite Hn. cbv beta iota.
  rewrite Hti. cbv beta iota. rewrite Hs. cbv beta iota.
  destruct (match_http u); reflexivity.
Qed.

(** X8. With [entries] an array, the rest of [requestNavigationHistory]
    goes on only when [currentIndex], as a property key, is the index of
    an element of the array and that element has a string [url]; in every
    other case it ends in a [TypeError] with the world exactly as before,
    nothing stored and nothing sent. In particular an index at or beyond
    the length of the array, so any index into an empty array, ends that
    way. *)
Theorem navigation_history_reads_inside_entries
    (history_ idx : value) (es : list value) (w : world) :
  truthy history_ = true →
  get history_ (lit "currentIndex") = Normal idx →
  get history_ (lit "entries") = Normal (VArr es) →
  let r := requestNavigationHistory_resume history_ w in
  ((∃ (k : jsstring) (i : nat) (entry : value) (u : jsstring),
      to_string idx = Normal k ∧
      array_index k = Some i ∧
      es !! i = Some entry ∧
      get entry (lit "url") = Normal (VStr u)) ∨
   r = (Throw TypeError, w)) ∧
  (∀ (k : jsstring) (i : nat),
     to_string idx = Normal k → array_index k = Some i →
     (length es ≤ i)%nat →
     r = (Throw TypeError, w)).
Proof.
  intros Ht Hi He r.
  assert ((∃ (k : jsstring) (i : nat) (entry : value) (u : jsstring),
             to_string idx = Normal k ∧ array_index k = Some i ∧
             es !! i = Some entry ∧
             get entry (lit "url") = Normal (VStr u)) ∨
          r = (Throw TypeError, w)) as Hin.
  { subst r. unfold_callbacks. rewrite Ht. cbn [negb]. cbv beta iota.
    rewrite Hi. cbv beta iota. rewrite He. cbv beta iota.
    destruct (to_string idx) as [k|[]] eqn:Hk; cbv beta iota; [|by right].
    cbn [get].
    destruct (array_index k) as [i|] eqn:Hix.
    - destruct (es !! i) as [entry|] eqn:Hentry;
        cbn [default from_option id]; cbv beta iota.
      + destruct (get entry (lit "url")) as [url0|[]] eqn:Hu;
          cbv beta iota; [|by right].
        destruct url0 as [| | | |u| |]; cbv beta iota; try by right.
        left. by exists k, i, entry, u.
      + cbn [get]. by right.
    - case_bool_decide; cbv beta iota; cbn [get]; by right. }
  split; [exact Hin|].
  intros k i Hk Hix Hlen.
  destruct Hin as [(k' & i' & entry & u & Hk' & Hix' & Hentry & _) | Hr];
    [|exact Hr].
  exfalso. rewrite Hk in Hk'. injection Hk' as <-.
  rewrite Hix in Hix'. injection Hix' as <-.
  apply lookup_lt_Some in Hentry. lia.
Qed.

(** X9. The pattern is undone by the prefix it strips. For any non-empty
    text [g] without line terminators, the url ['http://' + g] matches
    and group 1 is [g] again. *)
Theorem http_prefix_round_trip (g : jsstring) :
  g ≠ [] →
  Forall (λ c, line_terminator c = false) g →
  match_http (lit "http://" ++ g) = Some g.
Proof.
  intros Hne Hlt. unfold match_http.
  rewrite (proj2 (AppFacts.strip_prefix_Some (lit "http://")
                    (lit "http://" ++ g) g) eq_refl).
  assert (dot_plus g = g) as ->.
  { clear Hne. induction Hlt as [|c g Hc _ IH]; [done|].
    cbn [dot_plus]. by rewrite Hc, IH. }
  by destruct g.
Qed.

(** ** One event *)

(** What any one event does to the shell, seen through everything the
    runs are observed through. *)
Lemma dispatch_footprint (e : event) (s : shell) :
  let s' := (dispatch e s).2 in
  devicePixelRatio (app s') = devicePixelRatio (app s) ∧
  registrations s' = registrations s ∧
  timers s' = timers s ++ timers_due e ∧
  logging_modes s' =
    logging_modes s ++
      (if is_update e then [verbose (state (app s))] else []) ∧
  (is_configuration e = false →
   verbose (state (app s')) = verbose (state (app s))) ∧
  (boolean_like (verbose (state (app s))) →
   boolean_like (verbose (state (app s')))) ∧
  frame (state (app s')) = default (frame (state (app s))) (frame_due e) ∧
  (loading_ok (state (app s)) → loading_ok (state (app s'))) ∧
  ∃ new,
    sent (app s') = sent (app s) ++ new ∧
    (is_interaction e = false →
     Forall (λ c, named_command c = true) new ∧ acks new = ack_due e).
Proof.
  destruct s as [[st dpr cs] ts ls rs].
  destruct e as [[] payload | action data | action data | [|data|] [v|v]
                 | [] |];
    unfold_callbacks; cbn [app state sent devicePixelRatio timers
                             logging_modes registrations];
    repeat case_on_next;
    try match goal with
        | |- context [match ?u with VUndefined => _ | _ => _ end] =>
            is_var u; destruct u
        end;
    repeat case_on_next;
    try (exfalso;
         match goal with
         | Hn : get ?v _ = Normal _, Ht : get ?v ?k = Throw _ |- _ =>
             destruct (get_again _ _ _ k Hn); congruence
         end);
    cbn [snd app state sent devicePixelRatio timers logging_modes
           registrations frame verbose viewportMetadata
           timers_due is_update is_configuration frame_due ack_due
           is_interaction];
    rewrite ?app_nil_r;
    repeat match goal with
           | Hg : get ?v ?k = Throw _ |- context [get ?v ?k'] =>
               rewrite (get_throw_again _ _ k k' Hg)
           | Hg : get ?v ?k = _ |- context [get ?v ?k] => rewrite Hg
           end;
    cbn [default from_option id];
    split_and!; try done.
  all: lazymatch goal with
       | |- loading_ok _ → _ => unfold loading_ok; cbn; intuition
       | |- boolean_like _ → _ => unfold boolean_like; by eauto
       | |- ∃ new, _ =>
           first [ exists []; split; [by rewrite ?app_nil_r|]
                 | eexists; split; [reflexivity|]
                 | eexists; split; [by rewrite <- app_assoc|] ];
           intros Hint;
           first [ discriminate Hint | congruence
                 | split; [by repeat constructor | reflexivity] ]
       end.
Qed.

(** ** Runs *)

Lemma run_cons (e : event) (evs : list event) (s : shell) :
  run (e :: evs) s = run evs (dispatch e s).2.
Proof. reflexivity. Qed.

Lemma acks_app (cs1 cs2 : list call) : acks (cs1 ++ cs2) = acks cs1 ++ acks cs2.
Proof. unfold acks. by rewrite List.filter_app, fmap_app. Qed.

Lemma constructed_state (dpr : number) :
  state (app (constructed dpr)) = initial_state.
Proof. reflexivity. Qed.

Lemma run_loading_ok (evs : list event) : ∀ s,
  loading_ok (state (app s)) → loading_ok (state (app (run evs s))).
Proof.
  induction evs as [|e evs IH]; intros s Hs; [done|].
  rewrite run_cons. apply IH.
  by apply (dispatch_footprint e s).
Qed.

(** X10. From construction on, whatever calls into the App and in whatever
    order, [isLoading] and [loadingPercent] hold one of the four pairs the
    source ever assigns together: [false] with [0], [true] with [0.1],
    [true] with [1.0], [false] with [1.0]. *)
Theorem loading_indicator_invariant (dpr : number) (evs : list event) :
  loading_ok (state (app (run evs (constructed dpr)))).
Proof.
  apply run_loading_ok. rewrite constructed_state. by left.
Qed.

Lemma run_boolean_like (evs : list event) : ∀ s,
  boolean_like (verbose (state (app s))) →
  Forall boolean_like (logging_modes s) →
  Forall boolean_like (logging_modes (run evs s)).
Proof.
  induction evs as [|e evs IH]; intros s Hv Hl; [done|].
  rewrite run_cons.
  destruct (dispatch_footprint e s)
    as (_ & _ & _ & Hlog & _ & Hbool & _).
  apply IH; [by apply Hbool|].
  rewrite Hlog. apply Forall_app. split; [done|].
  destruct (is_update e); [by constructor | constructor].
Qed.

(** X11. Every logging mode the App ever hands to
    [connection.setLoggingMode], in the constructor or in
    [componentDidUpdate] after any run of events, is the literal [false]
    or a truthy value; a falsy value other than [false] never reaches the
    Connection. *)
Theorem logging_modes_are_boolean_like (dpr : number) (evs : list event) :
  Forall boolean_like (logging_modes (run evs (constructed dpr))).
Proof.
  apply run_boolean_like.
  - by left.
  - repeat constructor.
Qed.

(** X12. Only an ['extension.appConfiguration'] notification changes the
    logging mode. Over a run without one, [state.verbose] stays what it
    was and every [componentDidUpdate] of the run hands that same value
    to [connection.setLoggingMode], once per update. *)
Theorem logging_mode_changes_only_on_configuration
    (evs : list event) (s : shell) :
  Forall (λ e, is_configuration e = false) evs →
  verbose (state (app (run evs s))) = verbose (state (app s)) ∧
  logging_modes (run evs s) =
    logging_modes s ++
      replicate (length (List.filter is_update evs)) (verbose (state (app s))).
Proof.
  revert s. induction evs as [|e evs IH]; intros s Hevs.
  - split; [done|]. simpl. by rewrite app_nil_r.
  - apply Forall_cons in Hevs as [He Hevs]. rewrite run_cons.
    destruct (dispatch_footprint e s)
      as (_ & _ & _ & Hlog & Hverb & _).
    destruct (IH (dispatch e s).2 Hevs) as [IH1 IH2].
    rewrite IH1, IH2, Hlog, (Hverb He). split; [done|].
    simpl. destruct (is_update e); simpl; by rewrite <- ?app_assoc, ?app_nil_r.
Qed.

(** X13. The frame the viewport is given is always the one built from the
    last ['Page.screencastFrame'] notification that carried a payload;
    no other event, and no frame notification without a payload,
    changes [state.frame]. *)
Theorem frame_is_the_latest_screencast_frame (evs : list event) (s : shell) :
  frame (state (app (run evs s))) = latest_frame evs (frame (state (app s))).
Proof.
  revert s. induction evs as [|e evs IH]; intros s; [done|].
  rewrite run_cons, IH. simpl.
  by destruct (dispatch_footprint e s) as (_ & _ & _ & _ & _ & _ & -> & _).
Qed.

Lemma run_named_commands (evs : list event) : ∀ s,
  Forall (λ e, is_interaction e = false) evs →
  Forall (λ c, named_command c = true) (sent (app s)) →
  Forall (λ c, named_command c = true) (sent (app (run evs s))).
Proof.
  induction evs as [|e evs IH]; intros s Hevs Hs; [done|].
  apply Forall_cons in Hevs as [He Hevs]. rewrite run_cons.
  apply IH; [done|].
  destruct (dispatch_footprint e s)
    as (_ & _ & _ & _ & _ & _ & _ & _ & new & -> & Hnew).
  apply Forall_app. split; [done|]. by apply Hnew.
Qed.

(** X14. Apart from viewport interactions, which forward a command of the
    viewport's choosing, the App only ever sends the twelve commands the
    source names, whatever the events and their payloads; and the only
    promises it attaches code to are those of
    [Page.setDeviceMetricsOverride] and [Page.getNavigationHistory]. *)
Theorem only_named_commands_are_sent (dpr : number) (evs : list event) :
  Forall (λ e, is_interaction e = false) evs →
  Forall (λ c, named_command c = true)
    (sent (app (run evs (constructed dpr)))).
Proof.
  intros Hevs. apply run_named_commands; [done|].
  by repeat constructor.
Qed.

(** X15. Over any run without viewport interactions, the
    [Page.screencastFrameAck] commands sent are exactly one per
    ['Page.screencastFrame'] notification that carried a payload, in the
    order of the notifications, each with the [sessionId] of its frame;
    nothing else is ever acknowledged. *)
Theorem frames_are_acknowledged_in_order (evs : list event) (s : shell) :
  Forall (λ e, is_interaction e = false) evs →
  acks (sent (app (run evs s))) =
    acks (sent (app s)) ++ concat (ack_due <$> evs).
Proof.
  revert s. induction evs as [|e evs IH]; intros s Hevs.
  - simpl. by rewrite app_nil_r.
  - apply Forall_cons in Hevs as [He Hevs]. rewrite run_cons, (IH _ Hevs).
    destruct (dispatch_footprint e s)
      as (_ & _ & _ & _ & _ & _ & _ & _ & new & -> & Hnew).
    destruct (Hnew He) as [_ Hacks].
    rewrite acks_app, Hacks, fmap_cons. simpl. by rewrite <- app_assoc.
Qed.

Lemma main_frame_navigated (result frame_ parentId : value) (w : world) :
  get result (lit "frame") = Normal frame_ →
  get frame_ (lit "parentId") = Normal parentId →
  truthy parentId = false →
  on_Page_frameNavigated result w =
    (Normal tt,
     {| state :=
          {| frame := frame (state w);
             url := url (state w);
             verbose := verbose (state w);
             viewportMetadata :=
               {| height := height (viewportMetadata (state w));
                  width := width (viewportMetadata (state w));
                  isLoading := true;
                  loadingPercent := num_0_1 |};
             history := history (state w) |};
        devicePixelRatio := devicePixelRatio w;
        sent := sent w ++
          [Call (VStr (lit "Page.getNavigationHistory")) VUndefined
             AwaitNavigationHistory] |}).
Proof.
  intros Hf Hp Ht. unfold_callbacks. rewrite Hf. cbv beta iota.
  rewrite Hp. cbv beta iota. by rewrite Ht.
Qed.

(** X16. A main-frame navigation, the load event and the timer the load
    event sets, in this order, take the viewport's loading indicator
    from shown at 0.1, to shown at 1, to hidden at 0. Over the three steps
    the App sends [Page.getNavigationHistory] and nothing else, sets that
    one timer, of 500 ms, and leaves what the toolbar is given and the
    viewport's size and frame as they were. *)
Theorem loading_cycle (result frame_ parentId payload : value) (s : shell) :
  get result (lit "frame") = Normal frame_ →
  get frame_ (lit "parentId") = Normal parentId →
  truthy parentId = false →
  let s1 := run [Notify HFrameNavigated result] s in
  let s2 := run [Notify HLoadEventFired payload] s1 in
  let s3 := run [TimerFired LoadingDone] s2 in
  let shown (b : bool) (p : number) :=
    {| viewport_showLoading := b;
       viewport_width := width (viewportMetadata (state (app s)));
       viewport_height := height (viewportMetadata (state (app s)));
       viewport_loadingPercent := p;
       viewport_frame := frame (state (app s)) |} in
  (render (state (app s1))).2 = shown true num_0_1 ∧
  (render (state (app s2))).2 = shown true (num_of_Z 1) ∧
  (render (state (app s3))).2 = shown false (num_of_Z 0) ∧
  (render (state (app s3))).1 = (render (state (app s))).1 ∧
  sent (app s3) =
    sent (app s) ++
      [Call (VStr (lit "Page.getNavigationHistory")) VUndefined
         AwaitNavigationHistory] ∧
  timers s3 = timers s ++ [(LoadingDone, 500)].
Proof.
  intros Hf Hp Ht. destruct s as [w ts ls rs].
  cbn [run dispatch handle fire].
  unfold on_Page_loadEventFired, sbind, in_app. cbn [app].
  rewrite (main_frame_navigated result frame_ parentId w Hf Hp Ht).
  split_and!; reflexivity.
Qed.

End Facts.

(** ** The rest of the App on concrete inputs *)
Import Samples ShellSamples.

Lemma frameNavigated_without_frame_witness :
  on_Page_frameNavigated no_frame w0 = (Throw TypeError, w0).
Proof.
  exact (frameNavigated_without_frame no_frame VUndefined w0
           eq_refl eq_refl).
Defined.

Lemma size_change_without_data_witness :
  sent (onViewportChanged (VStr (lit "size")) VNull w0).2 =
    [Call (VStr (lit "Page.stopScreencast")) VUndefined Discarded].
Proof.
  by rewrite (size_change_without_data VNull w0 eq_refl).
Defined.

Lemma unknown_actions_are_ignored_witness :
  onToolbarActionInvoked (VStr (lit "zoom")) VUndefined w0 = (Normal tt, w0) ∧
  onViewportChanged (VStr (lit "zoom")) VUndefined w0 = (Normal tt, w0).
Proof.
  destruct (unknown_actions_are_ignored (VStr (lit "zoom")) VUndefined w0)
    as [Ht Hv].
  split; [apply Ht | apply Hv]; reflexivity.
Defined.

Lemma appConfiguration_applied_witness :
  on_extension_appConfiguration (VObj []) w0 = (Normal tt, w0) ∧
  ∃ startUrl verbose_ : value,
    startUrl = VStr (lit "http://localhost:3000") ∧
    verbose_ = VBool true ∧
    url (state (on_extension_appConfiguration configuration w0).2) =
      startUrl ∧
    verbose (state (on_extension_appConfiguration configuration w0).2) =
      verbose_ ∧
    sent (on_extension_appConfiguration configuration w0).2 =
      [Call (VStr (lit "Page.navigate")) (VObj [(lit "url", startUrl)])
         Discarded].
Proof.
  split.
  - exact (appConfiguration_applied (VObj []) VUndefined w0 eq_refl).
  - pose proof (appConfiguration_applied configuration
                  (VObj [(lit "startUrl",
                          VStr (lit "http://localhost:3000"));
                         (lit "verbose", VBool true)])
                  w0 eq_refl) as Happ.
    cbv zeta in Happ. change (truthy _) with true in Happ at 1.
    cbv iota in Happ.
    destruct Happ as (startUrl & verbose_ & Hsu & Hve & _ & Hurl & _ &
                      Hverb & _ & _ & _ & _ & _ & Hsent).
    injection Hsu as <-. injection Hve as <-.
    exists (VStr (lit "http://localhost:3000")), (VBool true).
    split_and!; [done | done | exact Hurl | exact Hverb |].
    rewrite Hsent. reflexivity.
Defined.

Lemma navigation_history_reads_inside_entries_witness :
  requestNavigationHistory_resume stale_history w0 = (Throw TypeError, w0).
Proof.
  apply (proj2 (navigation_history_reads_inside_entries stale_history
                  (int 1)
                  [VObj [(lit "url", VStr (lit "http://example.com/a"));
                         (lit "title", VStr (lit "Example"))]]
                  w0 eq_refl eq_refl eq_refl)
           (lit "1") 1%nat eq_refl eq_refl).
  simpl. lia.
Defined.

Lemma http_prefix_round_trip_witness :
  match_http (lit "http://" ++ lit "example.com") = Some (lit "example.com").
Proof.
  apply http_prefix_round_trip; [discriminate|].
  repeat constructor.
Defined.

Lemma logging_mode_changes_only_on_configuration_witness :
  logging_modes (run session s0) = [VBool false; VBool false; VBool false].
Proof.
  destruct (logging_mode_changes_only_on_configuration session s0)
    as [_ Hlog]; [by repeat constructor|].
  rewrite Hlog. reflexivity.
Defined.

Lemma only_named_commands_are_sent_witness :
  Forall (λ c, named_command c = true) (sent (app (run session s0))).
Proof.
  apply (only_named_commands_are_sent (H:=Exact.exact_number)
           (Exact.of_Z 2) session).
  by repeat constructor.
Defined.

Lemma frames_are_acknowledged_in_order_witness :
  acks (sent (app (run session s0))) = [VObj [(lit "sessionId", int 3)]].
Proof.
  rewrite (frames_are_acknowledged_in_order session s0)
    by (by repeat constructor).
  reflexivity.
Defined.

Lemma loading_cycle_witness :
  let s3 := run [Notify HFrameNavigated main_frame;
                 Notify HLoadEventFired VUndefined;
                 TimerFired LoadingDone] s0 in
  viewport_showLoading (render (state (app s3))).2 = false ∧
  timers s3 = [(LoadingDone, 500)].
Proof.
  destruct (loading_cycle main_frame (VObj [(lit "id", VStr (lit "F0"))])
              VUndefined VUndefined s0 eq_refl eq_refl eq_refl)
    as (_ & _ & H3 & _ & _ & Ht).
  intros s3. subst s3. split.
  - exact (f_equal viewport_showLoading H3).
  - exact Ht.
Defined.

End ShellFacts.
